(** * Range streaming in the AI-Video-Player web server

    A shallow embedding of the byte-range responder of [web.py]
    ([partial_response], [full_response], [stream_video], together with
    [load_json_file] and [save_json_file]) and of the Python builtins those
    functions call, followed by the properties of the streaming endpoint.

    Python integers are unbounded and are modelled by [Z]; a [bytes] value is
    a [list byte]; a [str] is a [string] (header text reaches the handler
    decoded as Latin-1, one character per octet); dictionaries are [gmap]s. *)

From Stdlib Require Import ZArith String Ascii List Lia DecimalString DecimalPos.
From Stdlib.Init Require Import Byte.
From stdpp Require Import base gmap strings list.

(** ** Python builtins used by the handler *)

Module Py.

(** [s.replace(old, new)]: every non-overlapping occurrence of [old],
    scanning from the left.  [skip] counts the characters of a matched
    occurrence that are still to be dropped. *)
Fixpoint replace_from (old new : string) (skip : nat) (s : string) : string :=
  match s with
  | EmptyString => EmptyString
  | String c s' =>
      match skip with
      | S k => replace_from old new k s'
      | O =>
          if String.prefix old s
          then String.append new (replace_from old new (String.length old - 1) s')
          else String c (replace_from old new 0 s')
      end
  end.

(** With an empty [old] Python inserts [new] before every character and at
    the end. *)
Fixpoint intersperse_str (new s : string) : string :=
  match s with
  | EmptyString => new
  | String c s' => String.append new (String c (intersperse_str new s'))
  end.

Definition replace (s old new : string) : string :=
  match old with
  | EmptyString => intersperse_str new s
  | String _ _ => replace_from old new 0 s
  end.

(** [s.split(sep)] for a one-character separator: never an empty list. *)
Fixpoint split (s : string) (sep : ascii) : list string :=
  match s with
  | EmptyString => [EmptyString]
  | String c s' =>
      if Ascii.eqb c sep then EmptyString :: split s' sep
      else match split s' sep with
           | x :: xs => String c x :: xs
           | [] => [String c EmptyString]
           end
  end.

(** Characters [int()] skips around a literal: ASCII space, TAB, LF, VT,
    FF, CR, and the two Latin-1 characters Unicode counts as white space
    (NEL, U+0085, and the no-break space, U+00A0). *)
Definition is_space (c : ascii) : bool :=
  let n := nat_of_ascii c in
  ((9 <=? n)%nat && (n <=? 13)%nat) || (n =? 32)%nat || (n =? 133)%nat || (n =? 160)%nat.

Definition digit_of (c : ascii) : option Z :=
  let n := nat_of_ascii c in
  if ((48 <=? n)%nat && (n <=? 57)%nat)%bool then Some (Z.of_nat (n - 48)) else None.

Fixpoint lstrip (s : string) : string :=
  match s with
  | EmptyString => EmptyString
  | String c s' => if is_space c then lstrip s' else s
  end.

Fixpoint rstrip (s : string) : string :=
  match s with
  | EmptyString => EmptyString
  | String c s' =>
      match rstrip s' with
      | EmptyString => if is_space c then EmptyString else String c EmptyString
      | r => String c r
      end
  end.

(** The digits of a base-10 literal after the first one: single
    underscores are allowed between digits only. *)
Fixpoint digits_from (acc : Z) (after_underscore : bool) (s : string) : option Z :=
  match s with
  | EmptyString => if after_underscore then None else Some acc
  | String c s' =>
      match digit_of c with
      | Some d => digits_from (10 * acc + d)%Z false s'
      | None =>
          if Ascii.eqb c "_"%char
          then if after_underscore then None else digits_from acc true s'
          else None
      end
  end.

Definition unsigned_literal (s : string) : option Z :=
  match s with
  | EmptyString => None
  | String c s' =>
      match digit_of c with
      | Some d => digits_from d false s'
      | None => None
      end
  end.

(** A base-10 literal with its sign and the white space around it. *)
Definition literal (s : string) : option Z :=
  match rstrip (lstrip s) with
  | String "+" r => unsigned_literal r
  | String "-" r => Z.opp <$> unsigned_literal r
  | t => unsigned_literal t
  end.

(** How many decimal digits a text holds. *)
Fixpoint count_digits (s : string) : Z :=
  match s with
  | EmptyString => 0
  | String c s' =>
      (match digit_of c with Some _ => 1 | None => 0 end + count_digits s')%Z
  end.

(** [sys.get_int_max_str_digits()], as the interpreter starts. *)
Definition max_str_digits : Z := 4300.

(** [int(s)] for a [str] in base 10; [None] stands for [ValueError], which
    is raised for a text that is no literal and for a literal of more than
    [max_str_digits] digits (leading zeros count, underscores do not). *)
Definition int (s : string) : option Z :=
  if (max_str_digits <? count_digits s)%Z then None else literal s.

(** [str(n)], as an f-string formats an integer. *)
Definition str (n : Z) : string := NilZero.string_of_int (Z.to_int n).

(** Truth value of a [str]. *)
Definition truthy (s : string) : bool :=
  match s with EmptyString => false | String _ _ => true end.

End Py.

(** ** Exceptions and binary file objects *)

Inductive Exn : Type :=
  | ValueError_int (text : string)         (* int() refused this text *)
  | ValueError_unpack (got : nat)          (* a, b = <list of length got>, got <> 2 *)
  | OSError_seek (offset : Z)              (* seek to a negative offset *)
  | ValueError_read_length                 (* read length must be non-negative or -1 *)
  | ValueError_closed.                      (* I/O operation on closed file *)

(** The object returned by [open(path, 'rb')]: the bytes of the file as the
    handle sees them, the cursor, and whether [close] has been called. *)
Record FileObj : Type := mkFile {
  f_data : list byte;
  f_pos : nat;
  f_closed : bool
}.

Definition fopen (data : list byte) : FileObj :=
  {| f_data := data; f_pos := 0; f_closed := false |}.

Definition fclose (f : FileObj) : FileObj :=
  {| f_data := f_data f; f_pos := f_pos f; f_closed := true |}.

(** [file.seek(offset)]: the cursor may be placed beyond the end of the
    file; a negative offset raises.  (The operating system also refuses
    offsets beyond the largest file its file system can hold; that bound
    is far above the size of any file and is not modelled.) *)
Definition fseek (f : FileObj) (offset : Z) : Exn + FileObj :=
  if f_closed f then inl ValueError_closed
  else if (offset <? 0)%Z then inl (OSError_seek offset)
  else inr {| f_data := f_data f; f_pos := Z.to_nat offset; f_closed := false |}.

(** [file.read(n)] on a buffered binary file: up to [n] bytes from the
    cursor, fewer only at the end of the file; [-1] reads everything that
    is left; any other negative [n] raises. *)
Definition fread (f : FileObj) (n : Z) : Exn + (list byte * FileObj) :=
  if f_closed f then inl ValueError_closed
  else if (n <? -1)%Z then inl ValueError_read_length
  else
    let rest := drop (f_pos f) (f_data f) in
    let data := if (n =? -1)%Z then rest else take (Z.to_nat n) rest in
    inr (data, {| f_data := f_data f; f_pos := f_pos f + length data; f_closed := false |}).

(** ** Configuration *)

Module Config.
Definition CHUNK_SIZE : Z := 1024 * 1024.
Definition MAX_CACHE_AGE : Z := 86400.
Definition ITEMS_PER_PAGE : Z := 32.
End Config.

(** ** The body generators

    [partial_response] and [full_response] each define a local generator
    function [generate] closing over their arguments.  A generator object is
    the closure ([GenKind]), the point its body has reached ([GenState]) and
    the file object it reads. *)

Inductive GenKind : Type :=
  | PartialGen (start end_ chunk_size : Z)
  | FullGen (total chunk_size : Z).

Inductive GenState : Type :=
  | Fresh                       (* created, body not entered yet *)
  | Suspended (remaining : Z)   (* stopped at [yield data] *)
  | Exhausted.                  (* returned, raised, or closed *)

Record Generator : Type := mkGen {
  g_kind : GenKind;
  g_state : GenState;
  g_file : FileObj
}.

Inductive Step : Type :=
  | Yield (data : list byte) (g : Generator)
  | StopIteration (g : Generator)
  | Raise (e : Exn) (g : Generator).

Definition chunk_size_of (k : GenKind) : Z :=
  match k with
  | PartialGen _ _ c => c
  | FullGen _ c => c
  end.

(** One turn of [while remaining: ...], entered with the given counter. *)
Definition loop_turn (k : GenKind) (remaining : Z) (f : FileObj) : Step :=
  if (remaining =? 0)%Z then StopIteration (mkGen k Exhausted f)
  else
    let chunk := Z.min (chunk_size_of k) remaining in
    match fread f chunk with
    | inl e => Raise e (mkGen k Exhausted f)
    | inr (data, f') =>
        match data with
        | [] => StopIteration (mkGen k Exhausted f')
        | _ :: _ => Yield data (mkGen k (Suspended (remaining - Z.of_nat (length data))) f')
        end
    end.

(** [next(g)]. *)
Definition gen_next (g : Generator) : Step :=
  match g_state g with
  | Fresh =>
      match g_kind g with
      | PartialGen start end_ _ =>
          let remaining := (end_ - start + 1)%Z in
          match fseek (g_file g) start with
          | inl e => Raise e (mkGen (g_kind g) Exhausted (g_file g))
          | inr f' => loop_turn (g_kind g) remaining f'
          end
      | FullGen total _ => loop_turn (g_kind g) total (g_file g)
      end
  | Suspended remaining => loop_turn (g_kind g) remaining (g_file g)
  | Exhausted => StopIteration g
  end.

(** [g.close()], what the server calls when the client goes away: the
    generator is finished where it stands.  [generate] has no [finally] and
    no [with] block, so nothing else runs. *)
Definition gen_close (g : Generator) : Generator :=
  mkGen (g_kind g) Exhausted (g_file g).

(** Consuming a body. *)
Inductive Ending : Type :=
  | Completed
  | Aborted (e : Exn).

Record Trace : Type := mkTrace {
  t_chunks : list (list byte);
  t_ending : Ending;
  t_final : Generator
}.

Definition add_chunk (d : list byte) (t : Trace) : Trace :=
  mkTrace (d :: t_chunks t) (t_ending t) (t_final t).

(** At most [fuel] calls of [next]; [None] when that was not enough to see
    the generator finish. *)
Fixpoint drain (fuel : nat) (g : Generator) : option Trace :=
  match fuel with
  | O => None
  | S fuel' =>
      match gen_next g with
      | StopIteration g' => Some (mkTrace [] Completed g')
      | Raise e g' => Some (mkTrace [] (Aborted e) g')
      | Yield d g' => add_chunk d <$> drain fuel' g'
      end
  end.

(** Every chunk takes at least one byte of the file, so one call more than
    the file has bytes always suffices (see [drain_total]). *)
Definition gen_fuel (g : Generator) : nat := S (length (f_data (g_file g))).

Definition run_body (g : Generator) : option Trace := drain (gen_fuel g) g.

(** The server pulls [n] chunks, then the client disconnects. *)
Fixpoint pull_then_close (n : nat) (g : Generator) : Generator :=
  match n with
  | O => gen_close g
  | S n' =>
      match gen_next g with
      | Yield _ g' => pull_then_close n' g'
      | StopIteration g' => g'
      | Raise _ g' => g'
      end
  end.

(** ** Responses *)

(** A header value as the handler writes it into the dictionary: the
    lengths are Python integers, everything else is text. *)
Inductive HeaderValue : Type :=
  | HStr (s : string)
  | HInt (n : Z).

(** The text of an error payload [{'error': ...}]: a literal, or [str(e)]
    of the exception that was caught. *)
Inductive ErrorText : Type :=
  | Text (s : string)
  | StrOf (e : Exn).

Inductive Response : Type :=
  | StreamResponse (status : Z) (headers : list (string * HeaderValue)) (body : Generator)
  | JsonError (payload : ErrorText) (status : Z).

Definition status_of (r : Response) : Z :=
  match r with
  | StreamResponse status _ _ => status
  | JsonError _ status => status
  end.

Definition headers_of (r : Response) : list (string * HeaderValue) :=
  match r with
  | StreamResponse _ headers _ => headers
  | JsonError _ _ => []
  end.

Definition body_of (r : Response) : option Generator :=
  match r with
  | StreamResponse _ _ body => Some body
  | JsonError _ _ => None
  end.

Fixpoint header (name : string) (hs : list (string * HeaderValue)) : option HeaderValue :=
  match hs with
  | [] => None
  | (k, v) :: hs' => if String.eqb k name then Some v else header name hs'
  end.

Definition cache_control : HeaderValue :=
  HStr ("public, max-age=" +:+ Py.str Config.MAX_CACHE_AGE).

Definition partial_response (file : FileObj) (start end_ total chunk_size : Z)
    (mime_type : string) : Response :=
  StreamResponse 206
    [ ("Content-Type", HStr mime_type);
      ("Accept-Ranges", HStr "bytes");
      ("Content-Range",
        HStr ("bytes " +:+ Py.str start +:+ "-" +:+ Py.str end_ +:+ "/" +:+ Py.str total));
      ("Content-Length", HInt (end_ - start + 1));
      ("Cache-Control", cache_control) ]
    (mkGen (PartialGen start end_ chunk_size) Fresh file).

Definition full_response (file : FileObj) (total chunk_size : Z)
    (mime_type : string) : Response :=
  StreamResponse 200
    [ ("Content-Type", HStr mime_type);
      ("Accept-Ranges", HStr "bytes");
      ("Content-Length", HInt total);
      ("Cache-Control", cache_control) ]
    (mkGen (FullGen total chunk_size) Fresh file).

(** ** The JSON stores and the video directory *)

(** A JSON file holding an object: [None] when the file is missing or
    cannot be read or decoded.  The server only ever writes dictionaries to
    these files. *)
Definition JsonFile (A : Type) : Type := option (gmap string A).

(** [load_json_file(filename, default)]: any failure is logged and gives the
    default, which is [{}] when no default was passed. *)
Definition load_json_file {A : Type} (file : JsonFile A)
    (default : option (gmap string A)) : gmap string A :=
  match file with
  | Some data => data
  | None =>
      match default with
      | Some d => d
      | None => ∅
      end
  end.

(** What the operating system makes of a write: it goes through, or it
    fails and leaves the file in some state of its own choosing (untouched
    when [open] failed, truncated when the failure came later). *)
Inductive WriteOutcome (A : Type) : Type :=
  | WriteOk
  | WriteFails (left_behind : JsonFile A).
Arguments WriteOk {A}.
Arguments WriteFails {A} left_behind.

(** [save_json_file(filename, data)]: the new content of the file.  The
    exception of a failed write is logged and swallowed; the function
    returns normally either way. *)
Definition save_json_file {A : Type} (data : gmap string A)
    (io : WriteOutcome A) : JsonFile A :=
  match io with
  | WriteOk => Some data
  | WriteFails left_behind => left_behind
  end.

Record Comment : Type := mkComment {
  c_text : string;
  c_timestamp : string;
  c_username : string
}.

(** A file under [Config.VIDEO_DIR]: what [os.stat] reports as its size, what
    [mimetypes.guess_type] answers for its name, and the bytes a handle
    opened on it reads.  The size is kept apart from the bytes so that a
    file that is longer or shorter than its reported size can be described. *)
Record VideoFile : Type := mkVideo {
  st_size : Z;
  guessed_type : option string;
  v_bytes : list byte
}.

(** The state of the server's directory.  [videos] holds the files under
    [Config.VIDEO_DIR] by the path a request names them with.  The three
    JSON stores lie in that directory too; they are kept in fields of
    their own, and [videos] stands for the other files only: what a
    request that names one of the stores is served is not described. *)
Record World : Type := mkWorld {
  videos : gmap string VideoFile;
  watch_history : JsonFile string;              (* watch_history.json *)
  comments : JsonFile (list Comment);           (* comments.json *)
  playlists : JsonFile (list string)            (* playlists.json *)
}.

(** The two entries of [get_video_info(path)] that [stream_video] uses.
    ['mime_type'] is [guess_type(name)[0] or 'video/mp4'].  (The function
    also looks up the duration of the video, through a cache that is kept
    in a file of its own; that touches none of the stores below and is
    left out.) *)
Record VideoInfo : Type := mkInfo {
  size : Z;
  mime_type : string
}.

Definition get_video_info (v : VideoFile) : VideoInfo :=
  {| size := st_size v;
     mime_type :=
       match guessed_type v with
       | Some t => if Py.truthy t then t else "video/mp4"
       | None => "video/mp4"
       end |}.

(** ** The handler *)

(** Lines 416 to 418 of [stream_video]: the bounds taken from a non-empty
    [Range] header, or the exception the three statements raise. *)
Definition parse_range (range_header : string) (total_size : Z) : Exn + (Z * Z) :=
  match Py.split (Py.replace range_header "bytes=" "") "-" with
  | [byte_start; byte_end] =>
      match Py.int byte_start with
      | None => inl (ValueError_int byte_start)
      | Some s =>
          match (if Py.truthy byte_end then Py.int byte_end
                 else Some (total_size - 1)%Z) with
          | None => inl (ValueError_int byte_end)
          | Some e => inr (s, Z.min e (total_size - 1))
          end
      end
  | parts => inl (ValueError_unpack (length parts))
  end.

(** [stream_video(filename)] for a request carrying [range_header]
    ([request.headers.get('Range')]), served at time [now]
    ([datetime.now().isoformat()]), with [io] the fate of the write to the
    history file.  The whole body of the function sits in [try], and every
    exception becomes a 500 response.  The file is taken to be a regular,
    readable one: [os.stat] and [open] succeed on it. *)
Definition stream_video (w : World) (filename : string) (range_header : option string)
    (now : string) (io : WriteOutcome string) : World * Response :=
  match videos w !! filename with
  | None => (w, JsonError (Text "Video not found") 404)
  | Some v =>
      let history := load_json_file (watch_history w) (Some ∅) in
      let history := <[filename := now]> history in
      let w' := {| videos := videos w;
                   watch_history := save_json_file history io;
                   comments := comments w;
                   playlists := playlists w |} in
      let video_info := get_video_info v in
      let total_size := size video_info in
      let mime_type := mime_type video_info in
      let file := fopen (v_bytes v) in
      let full := full_response file total_size Config.CHUNK_SIZE mime_type in
      match range_header with
      | Some h =>
          if Py.truthy h then
            match parse_range h total_size with
            | inl e => (w', JsonError (StrOf e) 500)
            | inr (byte_start, byte_end) =>
                (w', partial_response file byte_start byte_end total_size
                       Config.CHUNK_SIZE mime_type)
            end
          else (w', full)
      | None => (w', full)
      end
  end.

(** ** Reference notions used in the statements *)

(** Bytes [start .. end_] (inclusive) of a source. *)
Definition slice (data : list byte) (start end_ : Z) : list byte :=
  take (Z.to_nat (end_ - start + 1)) (drop (Z.to_nat start) data).

(** All the bytes of a body, in order. *)
Definition delivered (t : Trace) : list byte := concat (t_chunks t).

(** Whether a character occurs in a string. *)
Fixpoint occurs (c : ascii) (s : string) : bool :=
  match s with
  | EmptyString => false
  | String c' s' => Ascii.eqb c' c || occurs c s'
  end.

(** A decimal numeral: one ASCII digit or more, and nothing else. *)
Fixpoint all_digits (s : string) : bool :=
  match s with
  | EmptyString => true
  | String c s' => bool_decide (is_Some (Py.digit_of c)) && all_digits s'
  end.

Definition decimal (s : string) : bool := Py.truthy s && all_digits s.

(** How often a character occurs in a string. *)
Fixpoint count_char (c : ascii) (s : string) : nat :=
  match s with
  | EmptyString => 0
  | String c' s' => (if Ascii.eqb c' c then 1 else 0) + count_char c s'
  end.

(** What one [file.read(min(c, r))] returns when [rest] is the unread part
    of the file and neither [c] nor [r] is negative. *)
Definition chunk_read (c r : Z) (rest : list byte) : list byte :=
  take (Z.to_nat (Z.min c r)) rest.

(** What a run of the chunk loop delivers, entered with a counter [r] and
    a chunk size [c] that are not negative on a file whose unread part is
    [rest]: nothing when the counter or the chunk size is zero, otherwise
    the first [r] bytes. *)
Definition loop_bytes (c r : Z) (rest : list byte) : list byte :=
  if (r =? 0)%Z then []
  else if (c =? 0)%Z then []
  else take (Z.to_nat r) rest.

(** How a run of the chunk loop goes that is entered with a negative
    counter [r] and a chunk size of at least one: [read] is asked for [r]
    bytes.  It raises unless [r] is [-1]; for [-1] it returns the rest of
    the file, the loop ends if that is empty, and otherwise the next
    [read], asked for less than [-1] bytes, raises. *)
Definition negative_run (r : Z) (rest : list byte) : list (list byte) * Ending :=
  if (r =? -1)%Z then
    match rest with
    | [] => ([], Completed)
    | _ :: _ => ([rest], Aborted ValueError_read_length)
    end
  else ([], Aborted ValueError_read_length).

(** The characters of the texts [int()] accepts: digits, white space, the
    underscore and the two signs. *)
Definition int_char (c : ascii) : bool :=
  bool_decide (is_Some (Py.digit_of c)) || Py.is_space c
  || Ascii.eqb c "_" || Ascii.eqb c "+" || Ascii.eqb c "-".

Fixpoint all_int_chars (s : string) : bool :=
  match s with
  | EmptyString => true
  | String c s' => int_char c && all_int_chars s'
  end.

(** Headers the handler cannot read, told by their characters: with every
    [bytes=] deleted, the text has no [-] or more than one, or holds a
    character that no number has.  A unit that does not end in [bytes] leaves
    its [=] behind; a start or an end that is no number brings its
    letters; a second range brings a second [-] and the comma. *)
Definition malformed (range_header : string) : bool :=
  let t := Py.replace range_header "bytes=" "" in
  negb (count_char "-" t =? 1)%nat || negb (all_int_chars t).

(** ** A small server state for the examples *)

Definition ten_bytes : list byte :=
  ["a"; "b"; "c"; "d"; "e"; "f"; "g"; "h"; "i"; "j"]%byte.

Definition sample_video : VideoFile :=
  {| st_size := 50;
     guessed_type := Some "video/mp4";
     v_bytes := ten_bytes ++ ten_bytes ++ ten_bytes ++ ten_bytes ++ ten_bytes |}.

Definition sample_world : World :=
  {| videos := {[ "a.mp4" := sample_video ]};
     watch_history := Some {[ "b.mp4" := "2024-01-01T00:00:00" ]};
     comments := Some ∅;
     playlists := Some ∅ |}.

(** ** The rest of the server

    The playlist manager, the comment and playlist routes, the listing of
    videos, the player page and the duration text of [web.py], the playlist
    route of [web_iterations/iter_8.py] and the first streaming endpoint,
    [serve_video] of [web_iterations/iter_1.py]. *)

(** *** Builtins on lists, and [timedelta] *)

Module PyList.

(** An index of a slice, as Python adjusts it: a negative one counts from
    the end, and both kinds are clamped to [0 .. len]. *)
Definition clamp_index (len i : Z) : nat :=
  if (i <? 0)%Z then Z.to_nat (Z.max 0 (len + i)) else Z.to_nat (Z.min i len).

(** [l[start:stop]]. *)
Definition slice {A : Type} (l : list A) (start stop : Z) : list A :=
  let len := Z.of_nat (length l) in
  drop (clamp_index len start) (take (clamp_index len stop) l).

(** [l.index(x)]: the position of the first [x]; [None] stands for
    [ValueError]. *)
Fixpoint index (x : string) (l : list string) : option nat :=
  match l with
  | [] => None
  | y :: l' => if String.eqb y x then Some 0 else S <$> index x l'
  end.

(** [l.remove(x)] for an [x] that is in [l]: the first [x] goes.  (On a
    list without [x] Python raises; both callers test [x in l] first.) *)
Fixpoint remove (x : string) (l : list string) : list string :=
  match l with
  | [] => []
  | y :: l' => if String.eqb y x then l' else y :: remove x l'
  end.

(** [sep.join(l)]. *)
Fixpoint join (sep : string) (l : list string) : string :=
  match l with
  | [] => ""
  | [x] => x
  | x :: l' => x +:+ sep +:+ join sep l'
  end.

(** ["%02d" % n] for [n >= 0]. *)
Definition pad2 (n : Z) : string :=
  if (n <? 10)%Z then "0" +:+ Py.str n else Py.str n.

(** [str(timedelta(seconds=n))] for an integer [n >= 0]: the days, when
    there are any, then hours, minutes and seconds. *)
Definition str_timedelta (n : Z) : string :=
  let days := (n / 86400)%Z in
  let seconds := (n mod 86400)%Z in
  let mm := (seconds / 60)%Z in
  let ss := (seconds mod 60)%Z in
  let hh := (mm / 60)%Z in
  let mm := (mm mod 60)%Z in
  let s := Py.str hh +:+ ":" +:+ pad2 mm +:+ ":" +:+ pad2 ss in
  if (days =? 0)%Z then s
  else Py.str days +:+ " day" +:+ (if (days =? 1)%Z then "" else "s") +:+ ", " +:+ s.

End PyList.

(** *** [convert_duration] *)

(** The [ValueError]s of [hours, minutes, seconds = map(int, parts)]: the
    map is consumed item by item, a fourth item is asked for to see that
    there is none, and [int] fails on the first item that is no literal. *)
Inductive DurationError : Type :=
  | BadLiteral (s : string)
  | NotEnoughValues (got : nat)
  | TooManyValues.

Definition unpack3 (parts : list string) : DurationError + (Z * Z * Z) :=
  match parts with
  | [] => inl (NotEnoughValues 0)
  | a :: parts1 =>
      match Py.int a with
      | None => inl (BadLiteral a)
      | Some hours =>
          match parts1 with
          | [] => inl (NotEnoughValues 1)
          | b :: parts2 =>
              match Py.int b with
              | None => inl (BadLiteral b)
              | Some minutes =>
                  match parts2 with
                  | [] => inl (NotEnoughValues 2)
                  | c :: parts3 =>
                      match Py.int c with
                      | None => inl (BadLiteral c)
                      | Some seconds =>
                          match parts3 with
                          | [] => inr (hours, minutes, seconds)
                          | d :: _ =>
                              match Py.int d with
                              | None => inl (BadLiteral d)
                              | Some _ => inl TooManyValues
                              end
                          end
                      end
                  end
              end
          end
      end
  end.

(** [f"{n} unit{'s' if n != 1 else ''}"]. *)
Definition counted (n : Z) (unit : string) : string :=
  Py.str n +:+ " " +:+ unit +:+ (if (n =? 1)%Z then "" else "s").

Definition readable_format (hours minutes seconds : Z) : list string :=
  (if (0 <? hours)%Z then [counted hours "hour"] else []) ++
  (if (0 <? minutes)%Z then [counted minutes "minute"] else []) ++
  (if (0 <? seconds)%Z then [counted seconds "second"] else []).

Definition convert_duration (duration : string) : DurationError + string :=
  match unpack3 (Py.split duration ":") with
  | inl e => inl e
  | inr (hours, minutes, seconds) =>
      inr (PyList.join ", " (readable_format hours minutes seconds))
  end.

(** *** [PlaylistManager] *)

(** The manager's dictionary, a [defaultdict(list)], and the file behind
    it. *)
Record Playlists : Type := mkPlaylists {
  in_memory : gmap string (list string);
  on_disk : JsonFile (list string)
}.

(** [d[name]] on a [defaultdict(list)]: a missing key is inserted with an
    empty list. *)
Definition dd_getitem (d : gmap string (list string)) (name : string)
    : list string * gmap string (list string) :=
  match d !! name with
  | Some l => (l, d)
  | None => ([], <[name := []]> d)
  end.

(** [load_playlists]: a file that is missing or cannot be decoded leaves the
    dictionary as it is. *)
Definition load_playlists (s : Playlists) : Playlists :=
  match on_disk s with
  | Some d => {| in_memory := d; on_disk := on_disk s |}
  | None => s
  end.

Definition save_playlists (s : Playlists) (io : WriteOutcome (list string)) : Playlists :=
  {| in_memory := in_memory s;
     on_disk := match io with
                | WriteOk => Some (in_memory s)
                | WriteFails left_behind => left_behind
                end |}.

Definition create_playlist (s : Playlists) (name : string)
    (io : WriteOutcome (list string)) : Playlists * bool :=
  if bool_decide (is_Some (in_memory s !! name)) then (s, false)
  else
    (save_playlists {| in_memory := <[name := []]> (in_memory s); on_disk := on_disk s |} io,
     true).

Definition add_to_playlist (s : Playlists) (name video : string)
    (io : WriteOutcome (list string)) : Playlists * bool :=
  let '(l, d) := dd_getitem (in_memory s) name in
  if bool_decide (video ∈ l) then ({| in_memory := d; on_disk := on_disk s |}, false)
  else
    (save_playlists {| in_memory := <[name := l ++ [video]]> d; on_disk := on_disk s |} io,
     true).

Definition remove_from_playlist (s : Playlists) (name video : string)
    (io : WriteOutcome (list string)) : Playlists * bool :=
  let '(l, d) := dd_getitem (in_memory s) name in
  if bool_decide (video ∈ l) then
    (save_playlists
       {| in_memory := <[name := PyList.remove video l]> d; on_disk := on_disk s |} io,
     true)
  else ({| in_memory := d; on_disk := on_disk s |}, false).

Definition get_playlist (s : Playlists) (name : string) : Playlists * list string :=
  let '(l, d) := dd_getitem (in_memory s) name in
  ({| in_memory := d; on_disk := on_disk s |}, l).

Definition get_all_playlists (s : Playlists) : gmap string (list string) := in_memory s.

Definition delete_playlist (s : Playlists) (name : string)
    (io : WriteOutcome (list string)) : Playlists * bool :=
  if bool_decide (is_Some (in_memory s !! name)) then
    (save_playlists {| in_memory := delete name (in_memory s); on_disk := on_disk s |} io,
     true)
  else (s, false).

(** *** The playlist routes *)

Inductive Method : Type := GET | POST | DELETE.

(** The body of a playlist request: [data.get('name')] and
    [data.get('video')]. *)
Record PlaylistData : Type := mkPlaylistData {
  d_name : option string;
  d_video : option string
}.

Definition truthy_opt (o : option string) : option string :=
  match o with
  | Some s => if Py.truthy s then Some s else None
  | None => None
  end.

Inductive PlaylistReply : Type :=
  | AllPlaylists (d : gmap string (list string))
  | Outcome (success : bool) (message : string)
  | NameRequired.                                  (* 400 *)

(** [handle_playlists] of [web.py]. *)
Definition handle_playlists (s : Playlists) (method : Method) (data : PlaylistData)
    (io : WriteOutcome (list string)) : Playlists * PlaylistReply :=
  match method with
  | GET => (s, AllPlaylists (get_all_playlists s))
  | POST =>
      match truthy_opt (d_name data) with
      | None => (s, NameRequired)
      | Some name =>
          match truthy_opt (d_video data) with
          | Some video =>
              let '(s1, success) := add_to_playlist s name video io in
              (load_playlists s1, Outcome success "Video added to playlist")
          | None =>
              let '(s1, success) := create_playlist s name io in
              (load_playlists s1, Outcome success "Playlist created")
          end
      end
  | DELETE =>
      match truthy_opt (d_name data) with
      | None => (s, NameRequired)
      | Some name =>
          match truthy_opt (d_video data) with
          | Some video =>
              let '(s1, success) := remove_from_playlist s name video io in
              (s1, Outcome success "Video removed from playlist")
          | None =>
              let '(s1, success) := delete_playlist s name io in
              (s1, Outcome success "Playlist deleted")
          end
      end
  end.

(** The route [/api/playlists/<name>]: the videos of the playlist that
    exist, or 404 when the manager answers [None]. *)
Inductive PlaylistPage : Type :=
  | PlaylistVideos (vs : list (string * VideoInfo))
  | PlaylistNotFound.

Definition get_playlist_route (dir : gmap string VideoFile) (s : Playlists)
    (name : string) : Playlists * PlaylistPage :=
  let '(s1, playlist) := get_playlist s name in
  (s1,
   PlaylistVideos
     (omap (λ video_name, (λ v, (video_name, get_video_info v)) <$> dir !! video_name)
        playlist)).

(** [handle_playlists] of [iter_8.py]: the dictionary is read from the file
    on every request; [name] is [playlist_data['name']], [video] is
    [playlist_data.get('video')].  ([GET] and any other method only read.) *)
Definition handle_playlists_8 (file : JsonFile (list string)) (method : Method)
    (name : string) (video : option string) (io : WriteOutcome (list string))
    : JsonFile (list string) * gmap string (list string) :=
  let playlists := load_json_file file (Some ∅) in
  match method with
  | POST =>
      let playlists :=
        match truthy_opt video with
        | Some video_name =>
            let playlists :=
              if bool_decide (is_Some (playlists !! name)) then playlists
              else <[name := []]> playlists in
            let l := default [] (playlists !! name) in
            if bool_decide (video_name ∈ l) then playlists
            else <[name := l ++ [video_name]]> playlists
        | None => <[name := []]> playlists
        end in
      (save_json_file playlists io, playlists)
  | _ => (file, playlists)
  end.

(** *** The comment route *)

Inductive CommentsReply : Type :=
  | CommentList (l : list Comment)
  | CommentPosted (c : Comment)
  | KeyError (key : string).          (* not caught by the route *)

(** [handle_comments(filename)]; [comment_data] is the JSON object of the
    request. *)
Definition handle_comments (w : World) (filename : string) (method : Method)
    (comment_data : gmap string string) (now : string)
    (io : WriteOutcome (list Comment)) : World * CommentsReply :=
  let comments0 := load_json_file (comments w) (Some ∅) in
  let comments1 :=
    if bool_decide (is_Some (comments0 !! filename)) then comments0
    else <[filename := []]> comments0 in
  match method with
  | POST =>
      match comment_data !! "text" with
      | None => (w, KeyError "text")
      | Some text =>
          let comment :=
            {| c_text := text;
               c_timestamp := now;
               c_username := default "Anonymous" (comment_data !! "username") |} in
          let comments2 :=
            <[filename := default [] (comments1 !! filename) ++ [comment]]> comments1 in
          ({| videos := videos w;
              watch_history := watch_history w;
              comments := save_json_file comments2 io;
              playlists := playlists w |},
           CommentPosted comment)
      end
  | _ => (w, CommentList (default [] (comments1 !! filename)))
  end.

(** *** Pages of the video list and the next video of a playlist *)

Record VideoPage (A : Type) : Type := mkPage {
  page_videos : list A;
  page_total : Z;
  page_pages : Z
}.
Arguments mkPage {A}.
Arguments page_videos {A}.
Arguments page_total {A}.
Arguments page_pages {A}.

(** The last statements of [list_videos]: page [page] of the list [videos]
    that the request has built (sorted by the date of modification, or
    shuffled: in [web.py] when the request carries [shuf], in [iter_8.py]
    always), with [per_page] standing for [Config.ITEMS_PER_PAGE] (32 in
    [web.py], 12 in [iter_8.py]). *)
Definition paginate {A : Type} (per_page : Z) (videos : list A) (page : Z) : VideoPage A :=
  let start_idx := ((page - 1) * per_page)%Z in
  let end_idx := (start_idx + per_page)%Z in
  {| page_videos := PyList.slice videos start_idx end_idx;
     page_total := Z.of_nat (length videos);
     page_pages := ((Z.of_nat (length videos) + per_page - 1) / per_page)%Z |}.

(** [watch_video], lines 380 to 388: the video after [filename] in the
    playlist, when there is one. *)
Definition next_video (playlist : list string) (filename : string) : option string :=
  match PyList.index filename playlist with
  | Some current_index =>
      if (Z.of_nat current_index <? Z.of_nat (length playlist) - 1)%Z
      then playlist !! (current_index + 1)
      else None
  | None => None
  end.

(** *** [serve_video] of [iter_1.py]

    The generator opens the file itself, inside [with], when its body is
    entered, and reads to the end of the file. *)

Inductive ServeState : Type :=
  | NotStarted (data : list byte)     (* the file is not open yet *)
  | Reading (f : FileObj)             (* suspended at [yield chunk], inside [with] *)
  | Finished (f : option FileObj).    (* the file object, if one was opened *)

Inductive ServeStep : Type :=
  | ServeYield (chunk : list byte) (g : ServeState)
  | ServeStop (g : ServeState)
  | ServeRaise (e : Exn) (g : ServeState).

(** One turn of [while True: ...], inside the [with] block. *)
Definition serve_turn (chunk_size : Z) (f : FileObj) : ServeStep :=
  match fread f chunk_size with
  | inl e => ServeRaise e (Finished (Some (fclose f)))
  | inr (chunk, f') =>
      match chunk with
      | [] => ServeStop (Finished (Some (fclose f')))
      | _ :: _ => ServeYield chunk (Reading f')
      end
  end.

Definition serve_next (chunk_size : Z) (g : ServeState) : ServeStep :=
  match g with
  | NotStarted data => serve_turn chunk_size (fopen data)
  | Reading f => serve_turn chunk_size f
  | Finished _ => ServeStop g
  end.

(** [g.close()]: [GeneratorExit] is raised at the [yield], and leaving the
    [with] block closes the file. *)
Definition serve_close (g : ServeState) : ServeState :=
  match g with
  | NotStarted _ => Finished None
  | Reading f => Finished (Some (fclose f))
  | Finished _ => g
  end.

Fixpoint serve_drain (fuel : nat) (chunk_size : Z) (g : ServeState)
    : option (list (list byte) * ServeState) :=
  match fuel with
  | O => None
  | S fuel' =>
      match serve_next chunk_size g with
      | ServeStop g' => Some ([], g')
      | ServeRaise _ g' => Some ([], g')
      | ServeYield chunk g' =>
          (λ r, (chunk :: r.1, r.2)) <$> serve_drain fuel' chunk_size g'
      end
  end.

Fixpoint serve_pull_then_close (n : nat) (chunk_size : Z) (g : ServeState) : ServeState :=
  match n with
  | O => serve_close g
  | S n' =>
      match serve_next chunk_size g with
      | ServeYield _ g' => serve_pull_then_close n' chunk_size g'
      | ServeStop g' => g'
      | ServeRaise _ g' => g'
      end
  end.

(** No open file object is left behind. *)
Definition released (g : ServeState) : Prop :=
  match g with
  | NotStarted _ => True
  | Reading _ => False
  | Finished None => True
  | Finished (Some f) => f_closed f = true
  end.

(** ** File objects *)

Section FileFacts.

Lemma fread_open f n :
  f_closed f = false → (0 <= n)%Z →
  fread f n =
    inr (take (Z.to_nat n) (drop (f_pos f) (f_data f)),
         mkFile (f_data f)
           (f_pos f + length (take (Z.to_nat n) (drop (f_pos f) (f_data f)))) false).
Proof.
  intros Hc Hn. unfold fread. rewrite Hc.
  destruct (Z.ltb_spec n (-1)); [lia |]. by destruct (Z.eqb_spec n (-1)); [lia |].
Qed.

Lemma fread_rest f :
  f_closed f = false →
  fread f (-1) =
    inr (drop (f_pos f) (f_data f),
         mkFile (f_data f) (f_pos f + length (drop (f_pos f) (f_data f))) false).
Proof. intros Hc. unfold fread. by rewrite Hc. Qed.

Lemma fread_refused f n :
  f_closed f = false → (n < -1)%Z → fread f n = inl ValueError_read_length.
Proof.
  intros Hc Hn. unfold fread. rewrite Hc. by destruct (Z.ltb_spec n (-1)); [| lia].
Qed.

(** Whatever [read] returns comes from the unread part of the file, and
    the file stays open. *)
Lemma fread_inv f n data f' :
  fread f n = inr (data, f') →
  f_closed f = false ∧ length data <= length (f_data f) - f_pos f ∧
  f' = mkFile (f_data f) (f_pos f + length data) false.
Proof.
  unfold fread. destruct (f_closed f); [discriminate |].
  destruct (n <? -1)%Z; [discriminate |]. intros [= <- <-].
  split; [done |]. split; [| done].
  destruct (n =? -1)%Z; rewrite ?length_take, length_drop; lia.
Qed.

Lemma fseek_open f off :
  f_closed f = false → (0 <= off)%Z →
  fseek f off = inr (mkFile (f_data f) (Z.to_nat off) false).
Proof.
  intros Hc Hoff. unfold fseek. rewrite Hc.
  destruct (Z.ltb_spec off 0); [lia | done].
Qed.

Lemma file_eta f : f_closed f = false → f = mkFile (f_data f) (f_pos f + 0) false.
Proof. destruct f as [d p c]; simpl; intros ->. by rewrite Nat.add_0_r. Qed.

Lemma take_length_take {A} (n : nat) (l : list A) : take (length (take n l)) l = take n l.
Proof.
  rewrite length_take. destruct (Nat.min_spec n (length l)) as [[_ ->] | [Hle ->]]; [done |].
  by rewrite !take_ge.
Qed.

Lemma drop_past_rest {A} (p : nat) (l : list A) : drop (p + length (drop p l)) l = [].
Proof. apply drop_ge. rewrite length_drop. lia. Qed.

End FileFacts.

(** ** Reading the header *)

Section Parsing.

Lemma digit_char c :
  is_Some (Py.digit_of c) →
  Py.is_space c = false ∧ c ≠ "-"%char ∧ c ≠ "+"%char ∧ c ≠ "b"%char ∧ c ≠ "_"%char.
Proof.
  destruct c as [[] [] [] [] [] [] [] []]; vm_compute; intros [d Hd]; try discriminate;
    repeat split; congruence.
Qed.

Lemma all_digits_occurs c s :
  Py.digit_of c = None → all_digits s = true → occurs c s = false.
Proof.
  intros Hc. induction s as [| c' s IH]; [done |]. cbn [all_digits occurs].
  intros [Hd Hs]%andb_prop. rewrite IH by done.
  apply bool_decide_eq_true in Hd as [d Hd].
  destruct (Ascii.eqb_spec c' c) as [-> | ?]; [congruence | done].
Qed.

Lemma occurs_app c s t : occurs c (s +:+ t) = occurs c s || occurs c t.
Proof.
  induction s as [| c' s IH]; [done |].
  change (String c' s +:+ t) with (String c' (s +:+ t)). cbn [occurs].
  by rewrite IH, orb_assoc.
Qed.

Lemma prefix_append s t : String.prefix s (s +:+ t) = true.
Proof.
  induction s as [| c s IH]; [by destruct t |].
  change (String c s +:+ t) with (String c (s +:+ t)). cbn [String.prefix].
  by destruct (ascii_dec c c).
Qed.

Lemma replace_from_skip old new s t :
  Py.replace_from old new (String.length s) (s +:+ t) = Py.replace_from old new 0 t.
Proof.
  induction s as [| c s IH]; [by destruct t |].
  change (String c s +:+ t) with (String c (s +:+ t)). by cbn.
Qed.

Lemma replace_from_absent o old new t :
  occurs o t = false → Py.replace_from (String o old) new 0 t = t.
Proof.
  induction t as [| c t IH]; [done |]. cbn [occurs].
  intros [Hc Ht]%orb_false_elim. cbn [Py.replace_from String.prefix].
  destruct (ascii_dec o c) as [-> | _]; [by rewrite Ascii.eqb_refl in Hc |].
  by rewrite IH.
Qed.

(** Deleting [bytes=] from a header that starts with it and has no other
    [b]. *)
Lemma replace_bytes_unit t :
  occurs "b" t = false → Py.replace ("bytes=" +:+ t) "bytes=" "" = t.
Proof.
  intros Ht. unfold Py.replace.
  change ("bytes=" +:+ t) with (String "b" ("ytes=" +:+ t)).
  cbn [Py.replace_from].
  change (String "b" ("ytes=" +:+ t)) with ("bytes=" +:+ t).
  rewrite prefix_append.
  change (String.length "bytes=" - 1) with (String.length "ytes=").
  rewrite replace_from_skip. change ("" +:+ ?x) with x.
  by apply replace_from_absent.
Qed.

Lemma split_no_sep s sep : occurs sep s = false → Py.split s sep = [s].
Proof.
  induction s as [| c s IH]; [done |]. cbn [occurs Py.split].
  intros [-> Hs]%orb_false_elim. by rewrite IH.
Qed.

Lemma split_app a b sep :
  occurs sep a = false → Py.split (a +:+ String sep b) sep = a :: Py.split b sep.
Proof.
  induction a as [| c a IH].
  - intros _. change ("" +:+ String sep b) with (String sep b).
    cbn [Py.split]. by rewrite Ascii.eqb_refl.
  - cbn [occurs]. intros [Hc Ha]%orb_false_elim.
    change (String c a +:+ String sep b) with (String c (a +:+ String sep b)).
    cbn [Py.split]. by rewrite Hc, IH.
Qed.

Lemma split_length s sep : length (Py.split s sep) = S (count_char sep s).
Proof.
  induction s as [| c s IH]; [done |]. cbn [Py.split count_char].
  destruct (Ascii.eqb c sep); cbn [length]; [by rewrite IH |].
  destruct (Py.split s sep); [discriminate | done].
Qed.

Lemma rstrip_all_digits s : all_digits s = true → Py.rstrip s = s.
Proof.
  induction s as [| c s IH]; [done |]. cbn [all_digits Py.rstrip].
  intros [Hd Hs]%andb_prop. rewrite IH by done.
  apply bool_decide_eq_true, digit_char in Hd as (-> & _). by destruct s.
Qed.

(** Below the limit on the digits, [int] reads literals. *)
Lemma int_within_limit s :
  (Py.count_digits s <= Py.max_str_digits)%Z → Py.int s = Py.literal s.
Proof.
  intros Hs. unfold Py.int.
  by destruct (Z.ltb_spec Py.max_str_digits (Py.count_digits s)); [lia |].
Qed.

Lemma int_literal s v : Py.int s = Some v → Py.literal s = Some v.
Proof. unfold Py.int. by case_match. Qed.

Lemma count_digits_all_digits s :
  all_digits s = true → Py.count_digits s = Z.of_nat (String.length s).
Proof.
  induction s as [| c s IH]; [done |]. cbn [all_digits Py.count_digits String.length].
  intros [Hd Hs]%andb_prop. apply bool_decide_eq_true in Hd as [d ->].
  rewrite IH by done. lia.
Qed.

Lemma literal_unsigned c s :
  is_Some (Py.digit_of c) →
  Py.rstrip (Py.lstrip (String c s)) = String c s →
  Py.literal (String c s) = Py.unsigned_literal (String c s).
Proof.
  intros Hd Hs. unfold Py.literal. rewrite Hs.
  destruct c as [[] [] [] [] [] [] [] []]; try reflexivity;
    exfalso; destruct Hd as [d Hd]; vm_compute in Hd; discriminate.
Qed.

Lemma digit_of_nonneg c d : Py.digit_of c = Some d → (0 <= d)%Z.
Proof. unfold Py.digit_of. case_match; [| done]. intros [= <-]. lia. Qed.

Lemma digits_from_all_digits s : ∀ acc,
  (0 <= acc)%Z → all_digits s = true →
  ∃ v, Py.digits_from acc false s = Some v ∧ (0 <= v)%Z.
Proof.
  induction s as [| c s IH]; intros acc Hacc; [by eexists |].
  cbn [all_digits Py.digits_from]. intros [Hd Hs]%andb_prop.
  apply bool_decide_eq_true in Hd as [d Hd]. rewrite Hd.
  apply IH; [| done]. apply digit_of_nonneg in Hd. lia.
Qed.

(** [int()] reads a string of decimal digits, not too many of them, as a
    number that is not negative. *)
Lemma int_decimal a :
  decimal a = true → (Py.count_digits a <= Py.max_str_digits)%Z →
  ∃ v, Py.int a = Some v ∧ (0 <= v)%Z.
Proof.
  intros Hdec Hlimit. rewrite int_within_limit by done. revert Hdec.
  unfold decimal. intros [Hne Hall]%andb_prop.
  destruct a as [| c a]; [done |].
  pose proof Hall as Hall'. cbn [all_digits] in Hall'.
  apply andb_prop in Hall' as [Hd Ha]. apply bool_decide_eq_true in Hd.
  rewrite literal_unsigned; [| done |].
  - destruct Hd as [d Hd]. cbn [Py.unsigned_literal]. rewrite Hd.
    apply digits_from_all_digits; [by eapply digit_of_nonneg | done].
  - cbn [Py.lstrip]. destruct (digit_char c Hd) as (-> & _).
    by apply rstrip_all_digits.
Qed.

Lemma decimal_occurs c a : Py.digit_of c = None → decimal a = true → occurs c a = false.
Proof.
  unfold decimal. intros Hc [_ Ha]%andb_prop. by apply all_digits_occurs.
Qed.

(** The header [bytes=<a>-<b>] for decimal numerals [a] and [b]. *)
Lemma parse_range_closed a b total :
  decimal a = true → decimal b = true →
  (Py.count_digits a <= Py.max_str_digits)%Z →
  (Py.count_digits b <= Py.max_str_digits)%Z →
  ∃ s e, Py.int a = Some s ∧ Py.int b = Some e ∧ (0 <= s)%Z ∧
         parse_range ("bytes=" +:+ a +:+ "-" +:+ b) total = inr (s, Z.min e (total - 1)).
Proof.
  intros Ha Hb Hla Hlb.
  destruct (int_decimal a Ha Hla) as (s & Hs & Hs0), (int_decimal b Hb Hlb) as (e & He & _).
  exists s, e. repeat split; try done. unfold parse_range.
  rewrite replace_bytes_unit.
  2:{ rewrite !occurs_app, (decimal_occurs "b" a), (decimal_occurs "b" b) by done. done. }
  change ("-" +:+ b) with (String "-" b).
  rewrite split_app by (by apply decimal_occurs).
  rewrite split_no_sep by (by apply decimal_occurs).
  rewrite Hs. unfold decimal in Hb. apply andb_prop in Hb as [-> _]. by rewrite He.
Qed.

(** The header [bytes=<a>-] for a decimal numeral [a]. *)
Lemma parse_range_open_ended a total :
  decimal a = true → (Py.count_digits a <= Py.max_str_digits)%Z →
  ∃ s, Py.int a = Some s ∧ (0 <= s)%Z ∧
       parse_range ("bytes=" +:+ a +:+ "-") total = inr (s, (total - 1)%Z).
Proof.
  intros Ha Hla. destruct (int_decimal a Ha Hla) as (s & Hs & Hs0).
  exists s. repeat split; try done. unfold parse_range.
  rewrite replace_bytes_unit.
  2:{ rewrite !occurs_app, (decimal_occurs "b" a) by done. done. }
  rewrite split_app by (by apply decimal_occurs).
  cbn [Py.split Py.truthy]. rewrite Hs. by rewrite Z.min_id.
Qed.

Lemma parse_range_end_clamped h total :
  match parse_range h total with
  | inr (_, e) => (e <= total - 1)%Z
  | inl _ => True
  end.
Proof.
  unfold parse_range. repeat case_match; try done; simplify_eq; lia.
Qed.

(** A header with no [-], or with more than one, is not unpacked. *)
Lemma parse_range_needs_one_dash h total :
  count_char "-" (Py.replace h "bytes=" "") ≠ 1 →
  parse_range h total =
    inl (ValueError_unpack (S (count_char "-" (Py.replace h "bytes=" "")))).
Proof.
  intros Hn. unfold parse_range.
  pose proof (split_length (Py.replace h "bytes=" "") "-") as Hlen.
  destruct (Py.split _ _) as [| x [| y [| z l]]]; cbn [length] in *; try by rewrite <- Hlen.
  lia.
Qed.

Lemma literal_decimal_value a :
  decimal a = true → Py.literal a = Py.digits_from 0 false a.
Proof.
  unfold decimal. intros [Hne Hall]%andb_prop.
  destruct a as [| c a]; [done |].
  pose proof Hall as Hall'. cbn [all_digits] in Hall'.
  apply andb_prop in Hall' as [Hd Ha]. apply bool_decide_eq_true in Hd.
  rewrite literal_unsigned; [| done |].
  - destruct Hd as [d Hd]. cbn [Py.unsigned_literal Py.digits_from]. rewrite Hd.
    by rewrite Z.mul_0_r, Z.add_0_l.
  - cbn [Py.lstrip]. destruct (digit_char c Hd) as (-> & _).
    by apply rstrip_all_digits.
Qed.

Lemma all_digits_uint d : all_digits (NilEmpty.string_of_uint d) = true.
Proof. induction d; cbn [NilEmpty.string_of_uint all_digits]; [done | by rewrite IHd ..]. Qed.

Lemma digits_from_uint_acc d : ∀ p,
  Py.digits_from (Z.pos p) false (NilEmpty.string_of_uint d)
  = Some (Z.pos (Pos.of_uint_acc d p)).
Proof.
  induction d; intros p; cbn [NilEmpty.string_of_uint Py.digits_from Pos.of_uint_acc];
    [done | ..];
    match goal with
    | |- context [Py.digit_of ?c] =>
        let v := eval vm_compute in (Py.digit_of c) in
        change (Py.digit_of c) with v; cbv iota
    end;
    rewrite <- IHd; f_equal; lia.
Qed.

Lemma digits_from_uint d :
  Py.digits_from 0 false (NilEmpty.string_of_uint d) = Some (Z.of_N (Pos.of_uint d)).
Proof.
  induction d; cbn [NilEmpty.string_of_uint Py.digits_from Pos.of_uint];
    [done | ..];
    match goal with
    | |- context [Py.digit_of ?c] =>
        let v := eval vm_compute in (Py.digit_of c) in
        change (Py.digit_of c) with v; cbv iota
    end;
    [exact IHd | cbn [Z.of_N]; rewrite <- digits_from_uint_acc; f_equal ..].
Qed.

(** Printing a number that is not negative and reading it back. *)
Lemma str_decimal n : (0 <= n)%Z → decimal (Py.str n) = true.
Proof.
  intros Hn. destruct n as [| p | p]; [done | | lia].
  unfold Py.str. cbn [Z.to_int NilZero.string_of_int]. unfold NilZero.string_of_uint.
  pose proof (Unsigned.to_uint_nonnil p) as Hnil.
  destruct (Pos.to_uint p) eqn:E; [done | ..];
    rewrite <- E; unfold decimal; rewrite all_digits_uint, E; done.
Qed.

Lemma literal_str n : (0 <= n)%Z → Py.literal (Py.str n) = Some n.
Proof.
  intros Hn. rewrite literal_decimal_value by (by apply str_decimal).
  destruct n as [| p | p]; [done | | lia].
  unfold Py.str. cbn [Z.to_int NilZero.string_of_int]. unfold NilZero.string_of_uint.
  pose proof (Unsigned.to_uint_nonnil p) as Hnil.
  assert (Hs : match Pos.to_uint p with
               | Decimal.Nil => "0"%string
               | _ => NilEmpty.string_of_uint (Pos.to_uint p)
               end = NilEmpty.string_of_uint (Pos.to_uint p))
    by (by destruct (Pos.to_uint p)).
  rewrite Hs, digits_from_uint, DecimalPos.Unsigned.of_to. done.
Qed.

(** A numeral of [k] digits after a first digit that is not zero stands
    for a number of at least [10 ^ k]. *)
Lemma digits_from_lower s : ∀ acc v,
  (0 <= acc)%Z → all_digits s = true → Py.digits_from acc false s = Some v →
  (acc * 10 ^ Z.of_nat (String.length s) <= v)%Z.
Proof.
  induction s as [| c s IH]; intros acc v Hacc.
  - intros _ [= <-]. cbn. lia.
  - cbn [all_digits Py.digits_from String.length]. intros [Hd Hs]%andb_prop.
    apply bool_decide_eq_true in Hd as [d Hd]. rewrite Hd. intros Hv.
    pose proof (digit_of_nonneg _ _ Hd) as Hd0.
    apply IH in Hv; [| lia | done].
    rewrite Nat2Z.inj_succ, Z.pow_succ_r by lia.
    assert (0 <= 10 ^ Z.of_nat (String.length s))%Z by (apply Z.pow_nonneg; lia).
    nia.
Qed.

Lemma to_uint_head p d : Pos.to_uint p ≠ Decimal.D0 d.
Proof.
  intros H. pose proof (Unsigned.to_of (Pos.to_uint p)) as Hn.
  rewrite Unsigned.of_to in Hn. cbn [N.to_uint] in Hn. rewrite H in Hn.
  rewrite DecimalFacts.unorm_D0 in Hn. unfold Decimal.unorm in Hn.
  destruct (Decimal.nzhead d) eqn:E; try discriminate.
  - injection Hn as ->. by apply (Unsigned.to_uint_nonzero p).
  - by eapply DecimalFacts.nzhead_nonzero.
Qed.

(** The text of a positive number starts with a digit that is not zero. *)
Lemma str_head p :
  ∃ c s d, Py.str (Z.pos p) = String c s ∧ Py.digit_of c = Some d ∧ (1 <= d)%Z.
Proof.
  unfold Py.str. cbn [Z.to_int NilZero.string_of_int]. unfold NilZero.string_of_uint.
  pose proof (Unsigned.to_uint_nonnil p) as Hnil.
  pose proof (to_uint_head p) as Hzero.
  destruct (Pos.to_uint p) as [| u | u | u | u | u | u | u | u | u | u];
    [done | by destruct (Hzero u) | ..];
    cbn [NilEmpty.string_of_uint]; eexists _, _, _;
    (split; [reflexivity |]); by vm_compute.
Qed.

(** A number below [10 ^ k] is printed with at most [k] digits. *)
Lemma count_digits_str_le n k :
  (0 <= n)%Z → (1 <= k)%Z → (n < 10 ^ k)%Z → (Py.count_digits (Py.str n) <= k)%Z.
Proof.
  intros Hn Hk Hlimit.
  destruct n as [| p | p]; [change (Py.count_digits (Py.str 0)) with 1%Z; lia | | lia].
  pose proof (str_decimal (Z.pos p) Hn) as Hdec.
  pose proof (literal_str (Z.pos p) Hn) as Hlit.
  rewrite literal_decimal_value in Hlit by done.
  destruct (str_head p) as (c & s & d & Hstr & Hd & Hd1).
  rewrite Hstr in *. unfold decimal in Hdec. apply andb_prop in Hdec as [_ Hall].
  rewrite count_digits_all_digits by done.
  cbn [all_digits] in Hall. apply andb_prop in Hall as [_ Hall].
  cbn [Py.digits_from] in Hlit. rewrite Hd in Hlit.
  apply digits_from_lower in Hlit; [| lia | done].
  cbn [String.length]. rewrite Nat2Z.inj_succ.
  assert (Hpow : (10 ^ Z.of_nat (String.length s) < 10 ^ k)%Z).
  { assert (0 <= 10 ^ Z.of_nat (String.length s))%Z by (apply Z.pow_nonneg; lia). nia. }
  apply Z.pow_lt_mono_r_iff in Hpow; lia.
Qed.

(** A number below [10 ^ 4300] is printed with no more digits than [int]
    accepts. *)
Lemma count_digits_str n :
  (0 <= n)%Z → (n < 10 ^ Py.max_str_digits)%Z →
  (Py.count_digits (Py.str n) <= Py.max_str_digits)%Z.
Proof. intros Hn Hlimit. by apply count_digits_str_le. Qed.

Lemma int_str n :
  (0 <= n)%Z → (n < 10 ^ Py.max_str_digits)%Z → Py.int (Py.str n) = Some n.
Proof.
  intros Hn Hlimit. rewrite int_within_limit by (by apply count_digits_str).
  by apply literal_str.
Qed.

Lemma occurs_lstrip c s : occurs c s = false → occurs c (Py.lstrip s) = false.
Proof.
  induction s as [| c' s IH]; [done |]. cbn [occurs Py.lstrip].
  intros [Hc Hs]%orb_false_elim. destruct (Py.is_space c'); [by apply IH |].
  cbn [occurs]. by rewrite Hc, Hs.
Qed.

Lemma occurs_rstrip c s : occurs c s = false → occurs c (Py.rstrip s) = false.
Proof.
  induction s as [| c' s IH]; [done |]. cbn [occurs Py.rstrip].
  intros [Hc Hs]%orb_false_elim. specialize (IH Hs).
  destruct (Py.rstrip s) as [| c'' r].
  - destruct (Py.is_space c'); [done |]. cbn [occurs]. by rewrite Hc.
  - cbn [occurs] in *. by rewrite Hc, IH.
Qed.

Lemma split_parts_no_sep s sep :
  Forall (λ part, occurs sep part = false) (Py.split s sep).
Proof.
  induction s as [| c s IH]; [by repeat constructor |]. cbn [Py.split].
  destruct (Ascii.eqb c sep) eqn:Hc; [by constructor |].
  destruct (Py.split s sep) as [| x xs]; [by repeat constructor; cbn; rewrite Hc |].
  inversion IH as [| ? ? Hx Hxs]; subst. constructor; [| done].
  cbn [occurs]. by rewrite Hc, Hx.
Qed.

Lemma digits_from_nonneg s : ∀ acc after v,
  (0 <= acc)%Z → Py.digits_from acc after s = Some v → (0 <= v)%Z.
Proof.
  induction s as [| c s IH]; intros acc after v Hacc; cbn [Py.digits_from].
  - destruct after; [done |]. by intros [= <-].
  - destruct (Py.digit_of c) as [d |] eqn:Hd.
    + apply IH. apply digit_of_nonneg in Hd. lia.
    + destruct (Ascii.eqb c "_"); [| done]. destruct after; [done |]. by apply IH.
Qed.

Lemma unsigned_literal_nonneg s v : Py.unsigned_literal s = Some v → (0 <= v)%Z.
Proof.
  destruct s as [| c s]; [done |]. cbn [Py.unsigned_literal].
  destruct (Py.digit_of c) as [d |] eqn:Hd; [| done].
  apply digits_from_nonneg. by eapply digit_of_nonneg.
Qed.

(** Without a minus sign in the text, [int()] gives no negative number. *)
Lemma int_nonneg s v : occurs "-" s = false → Py.int s = Some v → (0 <= v)%Z.
Proof.
  intros Hs%occurs_lstrip%occurs_rstrip Hint%int_literal. revert Hint. unfold Py.literal.
  destruct (Py.rstrip (Py.lstrip s)) as [| c r]; [done |].
  destruct c as [[] [] [] [] [] [] [] []];
    try apply unsigned_literal_nonneg; discriminate.
Qed.

(** The handler never asks for a range that starts before byte 0. *)
Lemma parse_range_start_nonneg h total s e :
  parse_range h total = inr (s, e) → (0 <= s)%Z.
Proof.
  unfold parse_range.
  pose proof (split_parts_no_sep (Py.replace h "bytes=" "") "-") as Hparts.
  destruct (Py.split _ _) as [| a [| b [| c l]]]; try done.
  inversion Hparts as [| ? ? Ha _]; subst.
  destruct (Py.int a) as [s' |] eqn:Hs; [| done].
  intros Hr. assert (s' = s) as -> by (repeat case_match; by simplify_eq).
  by eapply int_nonneg.
Qed.

Lemma occurs_lstrip_keep c s :
  Py.is_space c = false → occurs c (Py.lstrip s) = occurs c s.
Proof.
  intros Hc. induction s as [| c' s IH]; [done |]. cbn [Py.lstrip occurs].
  destruct (Py.is_space c') eqn:Hs; [| done]. rewrite IH.
  destruct (Ascii.eqb_spec c' c) as [-> | _]; [congruence | done].
Qed.

Lemma occurs_rstrip_keep c s :
  Py.is_space c = false → occurs c (Py.rstrip s) = occurs c s.
Proof.
  intros Hc. induction s as [| c' s IH]; [done |]. cbn [Py.rstrip occurs].
  rewrite <- IH. destruct (Py.rstrip s) as [| c'' r]; [| done].
  destruct (Py.is_space c') eqn:Hs; [| done]. cbn [occurs].
  destruct (Ascii.eqb_spec c' c) as [-> | _]; [congruence | done].
Qed.

Lemma digits_from_chars c s : ∀ acc after v,
  Py.digit_of c = None → c ≠ "_"%char →
  Py.digits_from acc after s = Some v → occurs c s = false.
Proof.
  intros acc after v Hd Hu. revert acc after.
  induction s as [| c' s IH]; intros acc after; [done |].
  cbn [Py.digits_from occurs].
  destruct (Ascii.eqb_spec c' c) as [-> | _].
  - rewrite Hd. destruct (Ascii.eqb_spec c "_"); [done | discriminate].
  - cbn [orb]. destruct (Py.digit_of c'); [apply IH |].
    destruct (Ascii.eqb c' "_"); [| discriminate].
    destruct after; [discriminate | apply IH].
Qed.

Lemma unsigned_literal_chars c s v :
  Py.digit_of c = None → c ≠ "_"%char →
  Py.unsigned_literal s = Some v → occurs c s = false.
Proof.
  intros Hd Hu. destruct s as [| c' s]; [done |]. cbn [Py.unsigned_literal occurs].
  destruct (Py.digit_of c') eqn:Hd'; [| discriminate].
  intros Hv%(digits_from_chars c); [| done | done]. rewrite Hv.
  destruct (Ascii.eqb_spec c' c) as [-> | _]; [congruence | done].
Qed.

(** [int()] accepts digits, underscores, a sign and white space only. *)
Lemma int_chars c s v :
  Py.is_space c = false → Py.digit_of c = None →
  c ≠ "_"%char → c ≠ "+"%char → c ≠ "-"%char →
  Py.int s = Some v → occurs c s = false.
Proof.
  intros Hs Hd Hu Hp Hm Hint%int_literal. revert Hint.
  rewrite <- (occurs_lstrip_keep c s Hs).
  rewrite <- (occurs_rstrip_keep c _ Hs). unfold Py.literal.
  destruct (Py.rstrip (Py.lstrip s)) as [| c0 r]; [done |].
  assert (Hplain : Py.unsigned_literal (String c0 r) = Some v →
                   occurs c (String c0 r) = false)
    by (by apply unsigned_literal_chars).
  assert (Hsigned : ∀ sign o, sign ≠ c → o = Some v →
                    (o = Some v → ∃ u, Py.unsigned_literal r = Some u) →
                    occurs c (String sign r) = false).
  { intros sign o Hne Ho Hr. destruct (Hr Ho) as [u Hu'].
    cbn [occurs]. rewrite (unsigned_literal_chars c r u) by done.
    by destruct (Ascii.eqb_spec sign c). }
  destruct c0 as [[] [] [] [] [] [] [] []]; try exact Hplain.
  - intros Hv. apply (Hsigned "+"%char _ (not_eq_sym Hp) Hv). eauto.
  - intros Hv. apply (Hsigned "-"%char _ (not_eq_sym Hm) Hv).
    intros Ho. destruct (Py.unsigned_literal r); [eauto | discriminate].
Qed.

(** A character that no number has is in no text [int()] accepts. *)
Lemma int_refuses c s :
  int_char c = false → occurs c s = true → Py.int s = None.
Proof.
  unfold int_char. intros Hc Hocc.
  repeat (apply orb_false_elim in Hc as [Hc ?]).
  apply bool_decide_eq_false in Hc.
  destruct (Py.int s) as [v |] eqn:Hint; [| done].
  apply (int_chars c) in Hint; [congruence | done | | ..].
  - destruct (Py.digit_of c); [by destruct Hc | done].
  - intros ->. discriminate.
  - intros ->. discriminate.
  - intros ->. discriminate.
Qed.

Lemma all_int_chars_false s :
  all_int_chars s = false → ∃ c, occurs c s = true ∧ int_char c = false.
Proof.
  induction s as [| c s IH]; [done |]. cbn [all_int_chars occurs].
  destruct (int_char c) eqn:Hc.
  - intros (c' & Hocc & Hbad)%IH. exists c'. by rewrite Hocc, orb_true_r.
  - intros _. exists c. by rewrite Ascii.eqb_refl.
Qed.

(** A character other than the separator is in a text exactly when it is
    in one of its parts. *)
Lemma occurs_split c s sep :
  c ≠ sep → occurs c s = existsb (occurs c) (Py.split s sep).
Proof.
  intros Hne. induction s as [| c' s IH]; [done |]. cbn [occurs Py.split].
  destruct (Ascii.eqb_spec c' sep) as [-> | Hsep].
  - cbn [existsb occurs]. rewrite <- IH.
    by destruct (Ascii.eqb_spec sep c) as [<- | _].
  - rewrite IH. destruct (Py.split s sep) as [| x xs].
    + cbn [existsb occurs]. by rewrite !orb_false_r.
    + cbn [existsb occurs]. by rewrite orb_assoc.
Qed.

(** No malformed header is read as a range. *)
Lemma malformed_not_parsed h total :
  malformed h = true → ∃ e, parse_range h total = inl e.
Proof.
  unfold malformed. cbv zeta. set (t := Py.replace h "bytes=" "").
  destruct (Nat.eqb_spec (count_char "-" t) 1) as [Hone | Hmany].
  2:{ intros _. rewrite parse_range_needs_one_dash by done. eauto. }
  cbn [negb orb]. intros Hbad%negb_true_iff.
  apply all_int_chars_false in Hbad as (c & Hocc & Hc).
  assert (Hsep : c ≠ "-"%char) by (intros ->; discriminate).
  rewrite (occurs_split c t "-" Hsep) in Hocc.
  pose proof (split_length t "-") as Hlen. rewrite Hone in Hlen.
  unfold parse_range. fold t.
  destruct (Py.split t "-") as [| a [| b [| x l]]]; try discriminate.
  cbn [existsb] in Hocc. rewrite orb_false_r in Hocc.
  apply orb_prop in Hocc as [Ha | Hb].
  - rewrite (int_refuses c a) by done. eauto.
  - destruct (Py.int a); [| eauto].
    destruct b as [| c0 b]; [discriminate |]. cbn [Py.truthy].
    rewrite (int_refuses c (String c0 b)) by done. eauto.
Qed.

(** A header that is read as a range is not the empty text. *)
Lemma parse_range_nonempty h total r :
  parse_range h total = inr r → Py.truthy h = true.
Proof. by destruct h. Qed.

End Parsing.

(** ** The chunk loop *)

Section ChunkLoop.

Lemma loop_turn_zero k f :
  loop_turn k 0 f = StopIteration (mkGen k Exhausted f).
Proof. done. Qed.

Lemma loop_turn_eof k r f :
  f_closed f = false → r ≠ 0%Z → (0 <= Z.min (chunk_size_of k) r)%Z →
  chunk_read (chunk_size_of k) r (drop (f_pos f) (f_data f)) = [] →
  loop_turn k r f = StopIteration (mkGen k Exhausted f).
Proof.
  intros Hopen Hr Hmin Hnil. unfold loop_turn.
  destruct (Z.eqb_spec r 0); [done |].
  rewrite (fread_open _ _ Hopen Hmin).
  fold (chunk_read (chunk_size_of k) r (drop (f_pos f) (f_data f))).
  rewrite Hnil. cbn [length]. by rewrite <- file_eta.
Qed.

Lemma loop_turn_yield k r f :
  f_closed f = false → r ≠ 0%Z → (0 <= Z.min (chunk_size_of k) r)%Z →
  chunk_read (chunk_size_of k) r (drop (f_pos f) (f_data f)) ≠ [] →
  loop_turn k r f =
    let data := chunk_read (chunk_size_of k) r (drop (f_pos f) (f_data f)) in
    Yield data
      (mkGen k (Suspended (r - Z.of_nat (length data)))
         (mkFile (f_data f) (f_pos f + length data) false)).
Proof.
  intros Hopen Hr Hmin Hne. unfold loop_turn.
  destruct (Z.eqb_spec r 0); [done |].
  rewrite (fread_open _ _ Hopen Hmin).
  fold (chunk_read (chunk_size_of k) r (drop (f_pos f) (f_data f))).
  by destruct (chunk_read _ _ _).
Qed.

(** A counter below [-1] with a chunk size of at least one: [read] is
    asked for a negative number of bytes and raises. *)
Lemma loop_turn_refused k r f :
  f_closed f = false → (r < -1)%Z → (1 <= chunk_size_of k)%Z →
  loop_turn k r f = Raise ValueError_read_length (mkGen k Exhausted f).
Proof.
  intros Hopen Hr Hc. unfold loop_turn.
  destruct (Z.eqb_spec r 0); [lia |].
  by rewrite (fread_refused _ _ Hopen) by lia.
Qed.

Lemma chunk_read_length c r rest : length (chunk_read c r rest) <= length rest.
Proof. unfold chunk_read. rewrite length_take. lia. Qed.

(** The loop, resumed with a counter [r] and a chunk size that are not
    negative, finishes within one call more than the file has unread
    bytes and delivers [loop_bytes]. *)
Lemma drain_suspended n : ∀ k r f,
  f_closed f = false → (0 <= chunk_size_of k)%Z → (0 <= r)%Z →
  length (f_data f) - f_pos f < n →
  ∃ chunks,
    drain n (mkGen k (Suspended r) f) =
      Some (mkTrace chunks Completed
              (mkGen k Exhausted
                 (mkFile (f_data f) (f_pos f + length (concat chunks)) false))) ∧
    concat chunks = loop_bytes (chunk_size_of k) r (drop (f_pos f) (f_data f)).
Proof.
  induction n as [| n IH]; intros k r f Hopen Hc0 Hr0 Hfuel; [lia |].
  cbn [drain]. unfold gen_next. cbn [g_state g_kind g_file].
  destruct (Z.eq_dec r 0%Z) as [-> | Hr].
  { exists []. split; [| done]. cbn [concat length]. by rewrite <- file_eta. }
  remember (chunk_size_of k) as c eqn:Ec.
  remember (drop (f_pos f) (f_data f)) as rest eqn:Erest.
  assert (Hrest : length rest = length (f_data f) - f_pos f)
    by (subst rest; apply length_drop).
  assert (Hmin : (0 <= Z.min c r)%Z) by lia.
  destruct (decide (chunk_read c r rest = [])) as [Hnil | Hne].
  - rewrite loop_turn_eof by (subst; done).
    exists []. split; [cbn [concat length]; by rewrite <- file_eta |].
    cbn [concat]. unfold chunk_read in Hnil. unfold loop_bytes.
    destruct (Z.eqb_spec r 0); [done |].
    destruct (Z.eqb_spec c 0); [done |].
    destruct rest; [by rewrite take_nil |].
    destruct (Z.to_nat (Z.min c r)) eqn:E; [lia | discriminate].
  - rewrite loop_turn_yield by (subst; done). cbv zeta.
    rewrite <- Ec, <- Erest.
    pose proof (chunk_read_length c r rest) as Hlen.
    assert (Hpos : 1 <= length (chunk_read c r rest))
      by (destruct (chunk_read c r rest); [done | simpl; lia]).
    assert (Hlenc : (Z.of_nat (length (chunk_read c r rest)) <= Z.min c r)%Z)
      by (unfold chunk_read; rewrite length_take; lia).
    destruct (IH k (r - Z.of_nat (length (chunk_read c r rest)))%Z
                (mkFile (f_data f) (f_pos f + length (chunk_read c r rest)) false))
      as (chunks & Hdrain & Hbytes);
      [done | by rewrite <- Ec | lia | cbn [f_data f_pos]; lia |].
    cbn [f_data f_pos] in Hdrain, Hbytes.
    exists (chunk_read c r rest :: chunks). rewrite Hdrain.
    cbn [fmap option_fmap option_map add_chunk t_chunks t_ending t_final concat].
    split; [by rewrite length_app, Nat.add_assoc |].
    rewrite Hbytes, <- drop_drop, <- Erest, <- Ec. clear Hbytes Hdrain IH.
    revert Hpos Hlenc. unfold chunk_read, loop_bytes.
    destruct (Z.eqb_spec r 0); [done |]. intros Hpos Hlenc.
    destruct (Z.eqb_spec c 0) as [Hc0' | Hc0'].
    { rewrite Hc0', Z.min_l in Hpos by lia. simpl in Hpos. lia. }
    set (data := take (Z.to_nat (Z.min c r)) rest) in *.
    assert (Hd : data = take (length data) rest)
      by (unfold data; by rewrite take_length_take).
    destruct (Z.eqb_spec (r - Z.of_nat (length data)) 0) as [Hz | Hz].
    + rewrite app_nil_r, Hd. f_equal. lia.
    + rewrite Hd at 1. rewrite take_take_drop. f_equal. lia.
Qed.

(** Whatever the counter and the chunk size, the loop comes to an end
    within one call more than the file has unread bytes: a turn that
    yields has read at least one byte. *)
Lemma drain_terminates n : ∀ k r f,
  length (f_data f) - f_pos f < n →
  ∃ t, drain n (mkGen k (Suspended r) f) = Some t.
Proof.
  induction n as [| n IH]; intros k r f Hfuel; [lia |].
  cbn [drain]. unfold gen_next, loop_turn. cbn [g_state g_kind g_file].
  destruct (r =? 0)%Z; [eauto |].
  destruct (fread f _) as [e | [data f']] eqn:Hread; [eauto |].
  destruct data as [| b data]; [eauto |].
  apply fread_inv in Hread as (_ & Hlen & ->). cbn [length] in Hlen.
  destruct (IH k (r - Z.of_nat (length (b :: data)))%Z
              (mkFile (f_data f) (f_pos f + length (b :: data)) false))
    as [t Ht]; [cbn [f_data f_pos length]; lia |].
  rewrite Ht. eauto.
Qed.

(** The loop entered with a negative counter. *)
Lemma drain_negative n k r f :
  f_closed f = false → (r < 0)%Z → (1 <= chunk_size_of k)%Z →
  length (f_data f) - f_pos f < n →
  ∃ t, drain n (mkGen k (Suspended r) f) = Some t ∧
       (t_chunks t, t_ending t) = negative_run r (drop (f_pos f) (f_data f)).
Proof.
  intros Hopen Hr Hc Hfuel. destruct n as [| n]; [lia |].
  cbn [drain]. unfold gen_next. cbn [g_state g_kind g_file]. unfold negative_run.
  destruct (Z.eqb_spec r (-1)) as [-> | Hr1].
  2:{ rewrite loop_turn_refused by (done || lia). eauto. }
  unfold loop_turn. cbn [Z.eqb]. rewrite Z.min_r by lia.
  rewrite (fread_rest _ Hopen).
  pose proof (length_drop (f_data f) (f_pos f)) as Hlen.
  destruct (drop (f_pos f) (f_data f)) as [| b rest]; [eauto |].
  cbn [length] in Hlen. destruct n as [| n]; [lia |].
  cbn [drain]. unfold gen_next. cbn [g_state g_kind g_file length].
  rewrite loop_turn_refused by (done || lia). eauto.
Qed.

Lemma drain_fresh_partial n s e c f :
  f_closed f = false → (0 <= s)%Z →
  drain n (mkGen (PartialGen s e c) Fresh f) =
  drain n (mkGen (PartialGen s e c) (Suspended (e - s + 1)) (mkFile (f_data f) (Z.to_nat s) false)).
Proof.
  intros Hopen Hs. destruct n; [done |].
  cbn [drain]. unfold gen_next. cbn [g_state g_kind g_file].
  by rewrite (fseek_open _ _ Hopen Hs).
Qed.

Lemma drain_fresh_full n t c f :
  drain n (mkGen (FullGen t c) Fresh f) = drain n (mkGen (FullGen t c) (Suspended t) f).
Proof. by destruct n. Qed.

Lemma drain_fresh_partial_negative n s e c f :
  f_closed f = false → (s < 0)%Z →
  drain (S n) (mkGen (PartialGen s e c) Fresh f) =
  Some (mkTrace [] (Aborted (OSError_seek s)) (mkGen (PartialGen s e c) Exhausted f)).
Proof.
  intros Hopen Hs. cbn [drain]. unfold gen_next. cbn [g_state g_kind g_file].
  unfold fseek. rewrite Hopen. by destruct (Z.ltb_spec s 0); [| lia].
Qed.

(** The body of a partial response on a freshly opened file, for a range
    that does not end before the byte in front of its start. *)
Lemma run_partial data s e c :
  (0 <= s)%Z → (s <= e + 1)%Z → (0 <= c)%Z →
  ∃ chunks,
    run_body (mkGen (PartialGen s e c) Fresh (fopen data)) =
      Some (mkTrace chunks Completed
              (mkGen (PartialGen s e c) Exhausted
                 (mkFile data (Z.to_nat s + length (concat chunks)) false))) ∧
    concat chunks = loop_bytes c (e - s + 1) (drop (Z.to_nat s) data).
Proof.
  intros Hs Hse Hc. unfold run_body, gen_fuel. cbn [g_file fopen f_data].
  rewrite drain_fresh_partial by done. cbn [f_data].
  destruct (drain_suspended (S (length data)) (PartialGen s e c) (e - s + 1)
              (mkFile data (Z.to_nat s) false)) as (chunks & Hd & Hb);
    [done | done | lia | cbn [f_data f_pos]; lia |].
  exists chunks. by split.
Qed.

(** The body of a partial response for a range that ends further before
    its start. *)
Lemma run_partial_negative data s e c :
  (0 <= s)%Z → (e + 1 < s)%Z → (1 <= c)%Z →
  ∃ t, run_body (mkGen (PartialGen s e c) Fresh (fopen data)) = Some t ∧
       (t_chunks t, t_ending t) = negative_run (e - s + 1) (drop (Z.to_nat s) data).
Proof.
  intros Hs Hse Hc. unfold run_body, gen_fuel. cbn [g_file fopen f_data].
  rewrite drain_fresh_partial by done. cbn [f_data].
  apply (drain_negative _ (PartialGen s e c));
    [done | lia | done | cbn [f_data f_pos fopen]; lia].
Qed.

(** The body of a full response on a freshly opened file. *)
Lemma run_full data t c :
  (0 <= t)%Z → (0 <= c)%Z →
  ∃ chunks,
    run_body (mkGen (FullGen t c) Fresh (fopen data)) =
      Some (mkTrace chunks Completed
              (mkGen (FullGen t c) Exhausted
                 (mkFile data (length (concat chunks)) false))) ∧
    concat chunks = loop_bytes c t data.
Proof.
  intros Ht Hc. unfold run_body, gen_fuel. cbn [g_file fopen f_data].
  rewrite drain_fresh_full.
  destruct (drain_suspended (S (length data)) (FullGen t c) t (fopen data))
    as (chunks & Hd & Hb); [done | done | done | cbn [fopen f_data f_pos]; lia |].
  exists chunks. by split.
Qed.

(** On a range that lies inside the source, with a chunk size of at least
    one byte, the body is the slice. *)
Lemma run_partial_slice data s e c :
  (0 <= s)%Z → (s <= e)%Z → (e < Z.of_nat (length data))%Z → (1 <= c)%Z →
  ∃ t, run_body (mkGen (PartialGen s e c) Fresh (fopen data)) = Some t ∧
       t_ending t = Completed ∧ delivered t = slice data s e.
Proof.
  intros Hs Hse He Hc.
  destruct (run_partial data s e c) as (chunks & Hrun & Hbytes); [lia .. |].
  eexists. split; [exact Hrun |]. split; [done |].
  unfold delivered. cbn [t_chunks]. rewrite Hbytes. unfold loop_bytes, slice.
  destruct (Z.eqb_spec (e - s + 1) 0); [lia |].
  destruct (Z.eqb_spec c 0); [lia | done].
Qed.

End ChunkLoop.

Section ChunkShape.

(** With a counter and a chunk size that are not negative, every chunk the
    loop yields holds at least one byte and at most [chunk_size] bytes. *)
Lemma drain_chunk_sizes n : ∀ k r f t,
  f_closed f = false → (0 <= r)%Z → (0 <= chunk_size_of k)%Z →
  drain n (mkGen k (Suspended r) f) = Some t →
  Forall (λ ch : list byte,
            1 <= length ch ∧ (Z.of_nat (length ch) <= chunk_size_of k)%Z) (t_chunks t).
Proof.
  induction n as [| n IH]; intros k r f t Hopen Hr Hc Hrun; [discriminate |].
  cbn [drain] in Hrun. unfold gen_next in Hrun. cbn [g_state g_kind g_file] in Hrun.
  destruct (Z.eq_dec r 0%Z) as [-> | Hr0].
  { rewrite loop_turn_zero in Hrun. injection Hrun as <-. constructor. }
  assert (Hmin : (0 <= Z.min (chunk_size_of k) r)%Z) by lia.
  destruct (decide (chunk_read (chunk_size_of k) r (drop (f_pos f) (f_data f)) = []))
    as [Hnil | Hne].
  { rewrite loop_turn_eof in Hrun by done. injection Hrun as <-. constructor. }
  rewrite loop_turn_yield in Hrun by done. cbv zeta in Hrun.
  set (data := chunk_read (chunk_size_of k) r (drop (f_pos f) (f_data f))) in *.
  assert (Hlen : (Z.of_nat (length data) <= Z.min (chunk_size_of k) r)%Z).
  { unfold data, chunk_read. rewrite length_take. lia. }
  cbv iota in Hrun.
  destruct (drain n _) as [t' |] eqn:Hrest; [| discriminate].
  injection Hrun as <-. cbn [add_chunk t_chunks]. constructor.
  - split; [| lia]. destruct data; [done | simpl; lia].
  - eapply IH; [| | | exact Hrest]; [done | lia | done].
Qed.

End ChunkShape.

(** ** Properties of the responses *)

Section Responses.

(** C2: for every resource size [byte_size > 0] and every range
    [0 <= start <= end <= byte_size - 1] on a source holding at least
    [byte_size] bytes, the partial response (for any chunk size of at
    least one byte) has status 206, the header
    [Content-Range: bytes start-end/byte_size], [Content-Length] equal to
    [end - start + 1], and a body that completes and whose chunks
    concatenated are exactly bytes [start .. end] of the source. *)
Theorem partial_response_serves_range
    (data : list byte) (start end_ byte_size chunk_size : Z) (mime : string) :
  (0 < byte_size)%Z → (0 <= start)%Z → (start <= end_)%Z → (end_ <= byte_size - 1)%Z →
  (byte_size <= Z.of_nat (length data))%Z → (1 <= chunk_size)%Z →
  let r := partial_response (fopen data) start end_ byte_size chunk_size mime in
  status_of r = 206%Z ∧
  header "Content-Range" (headers_of r) =
    Some (HStr ("bytes " +:+ Py.str start +:+ "-" +:+ Py.str end_
                  +:+ "/" +:+ Py.str byte_size)) ∧
  header "Content-Length" (headers_of r) = Some (HInt (end_ - start + 1)) ∧
  ∃ g t, body_of r = Some g ∧ run_body g = Some t ∧ t_ending t = Completed ∧
         delivered t = slice data start end_ ∧
         Z.of_nat (length (delivered t)) = (end_ - start + 1)%Z.
Proof.
  intros Hsize Hs Hse He Hdata Hc. cbv zeta.
  split; [done |]. split; [reflexivity |]. split; [reflexivity |].
  destruct (run_partial_slice data start end_ chunk_size) as (t & Hrun & Hend & Hd);
    [lia .. |].
  exists (mkGen (PartialGen start end_ chunk_size) Fresh (fopen data)), t.
  split; [reflexivity |]. split; [exact Hrun |]. split; [exact Hend |].
  split; [exact Hd |].
  rewrite Hd. unfold slice. rewrite length_take, length_drop. lia.
Qed.

(** C6: for every range with [0 <= start <= end] and every declared size
    [total >= 0], whatever the source holds (it may be longer than
    declared), the body of the partial response yields at most
    [end - start + 1] bytes, all of them among bytes [start .. end], and
    leaves the cursor at or before [end + 1]; the body of the full
    response yields at most [total] bytes and leaves the cursor at or
    before [total]. *)
Theorem body_bounded_by_declared_length
    (data : list byte) (start end_ total chunk_size : Z) (mime : string) :
  (0 <= start)%Z → (start <= end_)%Z → (0 <= total)%Z → (0 <= chunk_size)%Z →
  (∃ g t, body_of (partial_response (fopen data) start end_ total chunk_size mime) = Some g ∧
          run_body g = Some t ∧
          (Z.of_nat (length (delivered t)) <= end_ - start + 1)%Z ∧
          (Z.of_nat (f_pos (g_file (t_final t))) <= end_ + 1)%Z ∧
          delivered t `prefix_of` slice data start end_) ∧
  (∃ g t, body_of (full_response (fopen data) total chunk_size mime) = Some g ∧
          run_body g = Some t ∧
          (Z.of_nat (length (delivered t)) <= total)%Z ∧
          (Z.of_nat (f_pos (g_file (t_final t))) <= total)%Z ∧
          delivered t `prefix_of` data).
Proof.
  intros Hs Hse Ht Hc. split.
  - destruct (run_partial data start end_ chunk_size) as (chunks & Hrun & Hbytes);
      [lia .. |].
    eexists _, _. split; [reflexivity |]. split; [exact Hrun |].
    unfold delivered. cbn [t_chunks t_final g_file f_pos].
    assert (Hcases : concat chunks = [] ∨ concat chunks = slice data start end_).
    { rewrite Hbytes. unfold loop_bytes, slice.
      destruct (Z.eqb_spec (end_ - start + 1) 0); [lia |].
      destruct (Z.eqb_spec chunk_size 0); [by left | by right]. }
    assert (Hlen : (Z.of_nat (length (slice data start end_)) <= end_ - start + 1)%Z)
      by (unfold slice; rewrite length_take; lia).
    destruct Hcases as [-> | ->].
    + cbn [length]. repeat split; [lia | lia | apply prefix_nil].
    + repeat split; [lia | lia | done].
  - destruct (run_full data total chunk_size) as (chunks & Hrun & Hbytes); [lia .. |].
    eexists _, _. split; [reflexivity |]. split; [exact Hrun |].
    unfold delivered. cbn [t_chunks t_final g_file f_pos].
    assert (Hcases : concat chunks = [] ∨ concat chunks = take (Z.to_nat total) data).
    { rewrite Hbytes. unfold loop_bytes.
      destruct (Z.eqb_spec total 0); [by left |].
      destruct (Z.eqb_spec chunk_size 0); [by left | by right]. }
    destruct Hcases as [-> | ->].
    + cbn [length]. repeat split; [lia | lia | apply prefix_nil].
    + rewrite length_take. repeat split; [lia | lia | apply prefix_take].
Qed.

Lemma loop_bytes_chunk_size c1 c2 r rest :
  (1 <= c1)%Z → (1 <= c2)%Z → loop_bytes c1 r rest = loop_bytes c2 r rest.
Proof.
  intros H1 H2. unfold loop_bytes.
  destruct (Z.eqb_spec r 0); [done |].
  destruct (Z.eqb_spec c1 0), (Z.eqb_spec c2 0); try lia. done.
Qed.

Lemma run_partial_chunk_sizes data s e c t :
  (0 <= s)%Z → (s <= e)%Z → (0 <= c)%Z →
  run_body (mkGen (PartialGen s e c) Fresh (fopen data)) = Some t →
  Forall (λ ch : list byte, 1 <= length ch ∧ (Z.of_nat (length ch) <= c)%Z) (t_chunks t).
Proof.
  intros Hs Hse Hc Hrun. unfold run_body in Hrun.
  rewrite drain_fresh_partial in Hrun by done.
  by eapply (drain_chunk_sizes _ (PartialGen s e c)) in Hrun; [| | lia |].
Qed.

(** C7: for every range and any two chunk sizes of at least one byte, the
    two bodies end the same way and deliver the same bytes; on a valid
    range ([0 <= start <= end]) the chunk size shows only in the chunks,
    each of which holds between one and [chunk_size] bytes. *)
Theorem chunk_size_only_changes_granularity
    (data : list byte) (start end_ total c1 c2 : Z) (mime : string) :
  (1 <= c1)%Z → (1 <= c2)%Z →
  ∃ g1 t1 g2 t2,
    body_of (partial_response (fopen data) start end_ total c1 mime) = Some g1 ∧
    run_body g1 = Some t1 ∧
    body_of (partial_response (fopen data) start end_ total c2 mime) = Some g2 ∧
    run_body g2 = Some t2 ∧
    delivered t1 = delivered t2 ∧
    t_ending t1 = t_ending t2 ∧
    ((0 <= start)%Z ∧ (start <= end_)%Z →
     Forall (λ ch : list byte, 1 <= length ch ∧ (Z.of_nat (length ch) <= c1)%Z) (t_chunks t1) ∧
     Forall (λ ch : list byte, 1 <= length ch ∧ (Z.of_nat (length ch) <= c2)%Z) (t_chunks t2)).
Proof.
  intros H1 H2. cbn [partial_response body_of].
  destruct (Z.lt_ge_cases start 0) as [Hneg | Hs].
  - eexists _, _, _, _. split; [reflexivity |].
    split; [by apply drain_fresh_partial_negative |]. split; [reflexivity |].
    split; [by apply drain_fresh_partial_negative |].
    repeat split; lia.
  - destruct (Z.lt_ge_cases (end_ + 1) start) as [Hinv | Hse1].
    { destruct (run_partial_negative data start end_ c1) as (t1 & Hrun1 & Ht1); [lia .. |].
      destruct (run_partial_negative data start end_ c2) as (t2 & Hrun2 & Ht2); [lia .. |].
      eexists _, t1, _, t2. split; [reflexivity |]. split; [exact Hrun1 |].
      split; [reflexivity |]. split; [exact Hrun2 |].
      rewrite <- Ht2 in Ht1. injection Ht1 as Hchunks Hending.
      unfold delivered. rewrite Hchunks. repeat split; [done | lia | lia]. }
    destruct (run_partial data start end_ c1) as (ch1 & Hrun1 & Hb1); [lia .. |].
    destruct (run_partial data start end_ c2) as (ch2 & Hrun2 & Hb2); [lia .. |].
    eexists _, _, _, _. split; [reflexivity |]. split; [exact Hrun1 |].
    split; [reflexivity |]. split; [exact Hrun2 |].
    unfold delivered. cbn [t_chunks t_ending].
    split; [rewrite Hb1, Hb2; by apply loop_bytes_chunk_size |].
    split; [done |]. intros [_ Hse].
    split.
    + apply (run_partial_chunk_sizes data start end_ c1 _ Hs Hse) in Hrun1; [done | lia].
    + apply (run_partial_chunk_sizes data start end_ c2 _ Hs Hse) in Hrun2; [done | lia].
Qed.

Lemma drain_total (g : Generator) : ∃ t, run_body g = Some t.
Proof.
  destruct g as [k st f]. unfold run_body, gen_fuel. cbn [g_file].
  destruct st as [| r |].
  - destruct k as [s e c | total c].
    + destruct (drain_terminates (S (length (f_data f))) (PartialGen s e c) (e - s + 1)
                  (mkFile (f_data f) (Z.to_nat s) false)) as [t Ht];
        [cbn [f_data f_pos]; lia |].
      cbn [drain] in *. unfold gen_next in *. cbn [g_state g_kind g_file] in *.
      unfold fseek. destruct (f_closed f); [eauto |]. destruct (s <? 0)%Z; eauto.
    + rewrite drain_fresh_full. apply drain_terminates. lia.
  - apply drain_terminates. lia.
  - cbn [drain]. unfold gen_next. cbn [g_state]. eauto.
Qed.

(** C9: the body of every generator, in any state and on any source,
    comes to an end within [gen_fuel] calls of [next] (with an exception,
    when a [seek] or a [read] raises one; a body never hangs).  The loop
    stops when the remaining-byte counter is zero, and it stops, without
    an error, when a read returns no data although the counter is not
    zero, which is what every read at the end of the file does that asks
    for a size the file object accepts; so a source that ends before the
    declared range does gives a body that completes with the bytes that
    were there. *)
Theorem body_production_terminates (g : Generator) :
  (∃ t, run_body g = Some t) ∧
  (∀ k f, gen_next (mkGen k (Suspended 0) f) = StopIteration (mkGen k Exhausted f)) ∧
  (∀ k r f f',
     r ≠ 0%Z → fread f (Z.min (chunk_size_of k) r) = inr ([], f') →
     gen_next (mkGen k (Suspended r) f) = StopIteration (mkGen k Exhausted f')) ∧
  (∀ k r f,
     f_closed f = false → r ≠ 0%Z → (-1 <= Z.min (chunk_size_of k) r)%Z →
     length (f_data f) <= f_pos f →
     gen_next (mkGen k (Suspended r) f) = StopIteration (mkGen k Exhausted f)) ∧
  (∀ data s e c,
     (0 <= s)%Z → (s <= e)%Z → (1 <= c)%Z → (Z.of_nat (length data) <= e)%Z →
     ∃ t, run_body (mkGen (PartialGen s e c) Fresh (fopen data)) = Some t ∧
          t_ending t = Completed ∧ delivered t = drop (Z.to_nat s) data).
Proof.
  split; [apply drain_total |]. split; [done |]. split; [| split].
  - intros k r f f' Hr Hread. unfold gen_next, loop_turn. cbn [g_state g_kind g_file].
    destruct (Z.eqb_spec r 0); [done |]. by rewrite Hread.
  - intros k r f Hopen Hr Hmin Heof. unfold gen_next, loop_turn.
    cbn [g_state g_kind g_file]. destruct (Z.eqb_spec r 0); [done |].
    unfold fread. rewrite Hopen.
    destruct (Z.ltb_spec (Z.min (chunk_size_of k) r) (-1)); [lia |].
    rewrite drop_ge by done. rewrite take_nil.
    destruct (_ =? -1)%Z; cbn [length]; by rewrite <- file_eta.
  - intros data s e c Hs Hse Hc Hshort.
    destruct (run_partial data s e c) as (chunks & Hrun & Hbytes); [lia .. |].
    eexists. split; [exact Hrun |]. split; [done |].
    unfold delivered. cbn [t_chunks]. rewrite Hbytes. unfold loop_bytes.
    destruct (Z.eqb_spec (e - s + 1) 0); [lia |].
    destruct (Z.eqb_spec c 0); [lia |].
    apply take_ge. rewrite length_drop. lia.
Qed.

End Responses.

(** ** Properties of the handler *)

Section Handler.

Lemma stream_video_found w filename range_header now io v :
  videos w !! filename = Some v →
  stream_video w filename range_header now io =
    let w' := {| videos := videos w;
                 watch_history :=
                   save_json_file
                     (<[filename := now]> (load_json_file (watch_history w) (Some ∅))) io;
                 comments := comments w;
                 playlists := playlists w |} in
    let file := fopen (v_bytes v) in
    let mime := mime_type (get_video_info v) in
    let full := full_response file (st_size v) Config.CHUNK_SIZE mime in
    match range_header with
    | Some h =>
        if Py.truthy h then
          match parse_range h (st_size v) with
          | inl e => (w', JsonError (StrOf e) 500%Z)
          | inr (byte_start, byte_end) =>
              (w', partial_response file byte_start byte_end (st_size v)
                     Config.CHUNK_SIZE mime)
          end
        else (w', full)
    | None => (w', full)
    end.
Proof. intros Hv. unfold stream_video. by rewrite Hv. Qed.

(** The stores after a request: nothing changes for a missing file, and
    only the history for an existing one. *)
Lemma stream_video_world w filename range_header now io :
  (stream_video w filename range_header now io).1 =
    match videos w !! filename with
    | None => w
    | Some _ =>
        {| videos := videos w;
           watch_history :=
             save_json_file
               (<[filename := now]> (load_json_file (watch_history w) (Some ∅))) io;
           comments := comments w;
           playlists := playlists w |}
    end.
Proof.
  unfold stream_video. destruct (videos w !! filename) as [v |]; [| done]. cbv zeta.
  destruct range_header as [h |]; [destruct (Py.truthy h) |]; [| done ..].
  by destruct (parse_range h _) as [e | [s e]].
Qed.

(** C5: a request without [Range] header for an existing file whose size
    is the number of its bytes gets status 200, the headers
    [Content-Type], [Accept-Ranges: bytes], [Content-Length] equal to the
    size and [Cache-Control: public, max-age=86400], and a body that
    completes and whose chunks concatenated are the whole file. *)
Theorem full_response_serves_resource
    (w : World) (filename now : string) (io : WriteOutcome string) (v : VideoFile) :
  videos w !! filename = Some v →
  st_size v = Z.of_nat (length (v_bytes v)) →
  let r := (stream_video w filename None now io).2 in
  status_of r = 200%Z ∧
  headers_of r =
    [ ("Content-Type", HStr (mime_type (get_video_info v)));
      ("Accept-Ranges", HStr "bytes");
      ("Content-Length", HInt (st_size v));
      ("Cache-Control", HStr "public, max-age=86400") ] ∧
  ∃ g t, body_of r = Some g ∧ run_body g = Some t ∧ t_ending t = Completed ∧
         delivered t = v_bytes v.
Proof.
  intros Hv Hsize. cbv zeta. rewrite (stream_video_found _ _ _ _ _ _ Hv). cbn.
  split; [done |]. split; [done |].
  assert (Hchunk : (0 < Config.CHUNK_SIZE)%Z) by done.
  destruct (run_full (v_bytes v) (st_size v) Config.CHUNK_SIZE) as (chunks & Hrun & Hbytes);
    [lia .. |].
  eexists _, _. split; [reflexivity |]. split; [exact Hrun |]. split; [done |].
  unfold delivered. cbn [t_chunks]. rewrite Hbytes. unfold loop_bytes.
  destruct (Z.eqb_spec (st_size v) 0) as [H0 | H0].
  { destruct (v_bytes v); [done | simpl in Hsize; lia]. }
  destruct (Z.eqb_spec Config.CHUNK_SIZE 0); [lia |].
  apply take_ge. lia.
Qed.

(** C1, as the code has it: a request whose [Range] header parses to a
    range with [start >= byte_size], or with [end < start] after the
    clamp, is not refused: the response is 206, not 416, and its
    [Content-Range] header is [bytes start-end/byte_size], not
    [bytes */byte_size]. *)
Theorem unsatisfiable_range_answered_206
    (w : World) (filename h now : string) (io : WriteOutcome string)
    (v : VideoFile) (s e : Z) :
  videos w !! filename = Some v →
  parse_range h (st_size v) = inr (s, e) →
  (st_size v <= s)%Z ∨ (e < s)%Z →
  let r := (stream_video w filename (Some h) now io).2 in
  status_of r = 206%Z ∧
  status_of r ≠ 416%Z ∧
  header "Content-Range" (headers_of r) =
    Some (HStr ("bytes " +:+ Py.str s +:+ "-" +:+ Py.str e +:+ "/" +:+ Py.str (st_size v))) ∧
  header "Content-Range" (headers_of r) ≠ Some (HStr ("bytes */" +:+ Py.str (st_size v))).
Proof.
  intros Hv Hparse _. cbv zeta.
  rewrite (stream_video_found _ _ _ _ _ _ Hv). cbv zeta.
  rewrite (parse_range_nonempty _ _ _ Hparse), Hparse.
  cbn [snd partial_response status_of headers_of].
  split; [done |]. split; [done |]. split; [reflexivity |].
  change (header "Content-Range" _) with
    (Some (HStr ("bytes " +:+ Py.str s +:+ "-" +:+ Py.str e +:+ "/" +:+ Py.str (st_size v)))).
  pose proof (str_decimal s (parse_range_start_nonneg _ _ _ _ Hparse)) as Hdec.
  unfold decimal in Hdec. apply andb_prop in Hdec as [_ Hdigits].
  destruct (Py.str s) as [| c rest]; intros Heq; cbv [String.append] in Heq;
    [discriminate |].
  injection Heq as -> _. by vm_compute in Hdigits.
Qed.

(** Through the handler: whatever header parses to a range with
    [start <= end] is answered with exactly those bytes.  The start is not
    negative and the end is inside the file by the way they were parsed. *)
Lemma stream_video_serves_parsed_range
    (w : World) (filename h now : string) (io : WriteOutcome string)
    (v : VideoFile) (s e : Z) :
  videos w !! filename = Some v →
  st_size v = Z.of_nat (length (v_bytes v)) →
  Py.truthy h = true →
  parse_range h (st_size v) = inr (s, e) →
  (s <= e)%Z →
  let r := (stream_video w filename (Some h) now io).2 in
  status_of r = 206%Z ∧
  ∃ g t, body_of r = Some g ∧ run_body g = Some t ∧ t_ending t = Completed ∧
         delivered t = slice (v_bytes v) s e.
Proof.
  intros Hv Hsize Hh Hparse Hse. cbv zeta.
  pose proof (parse_range_start_nonneg _ _ _ _ Hparse) as Hs.
  pose proof (parse_range_end_clamped h (st_size v)) as He. rewrite Hparse in He.
  rewrite (stream_video_found _ _ _ _ _ _ Hv). cbv zeta. rewrite Hh, Hparse.
  cbn [snd partial_response status_of body_of]. split; [done |].
  destruct (run_partial_slice (v_bytes v) s e Config.CHUNK_SIZE) as (t & Hrun & Hend & Hd);
    [lia | lia | lia | done |].
  eexists _, t. by split.
Qed.

(** C3, as the code has it: a request whose [Range] header is present,
    not empty and malformed (with [bytes=] deleted the text has no [-] or
    several, or a character that no number has) is not served from the
    full-body path: the exception of the unpacking or of [int] is caught
    by the handler and the response is a 500 carrying its text.  Only the
    empty header is treated as an absent one. *)
Theorem malformed_range_fails_request
    (w : World) (filename h now : string) (io : WriteOutcome string) (v : VideoFile) :
  videos w !! filename = Some v →
  Py.truthy h = true →
  malformed h = true →
  let r := (stream_video w filename (Some h) now io).2 in
  (∃ e, parse_range h (st_size v) = inl e ∧ r = JsonError (StrOf e) 500%Z) ∧
  status_of r = 500%Z ∧
  r ≠ (stream_video w filename None now io).2 ∧
  stream_video w filename (Some "") now io = stream_video w filename None now io.
Proof.
  intros Hv Hh Hbad. cbv zeta.
  destruct (malformed_not_parsed h (st_size v) Hbad) as [e He].
  rewrite !(stream_video_found _ _ _ _ _ _ Hv). cbv zeta. rewrite Hh, He.
  cbn [snd Py.truthy status_of]. repeat split; [by exists e | done].
Qed.

(** C10, as the code has it: a streaming request for an existing file
    [filename] leaves the comments and playlists stores as they were, and
    hands to the history file the history it loaded with the entry of
    [filename] set to the time of the request.  When the write goes
    through, that is what the store holds: the entry of [filename] is the
    time of the request and every other entry is as it was.  When the
    write fails, the store holds what the failure made of the file.  Either
    way the response has the status it has when the write goes through,
    and when the handler returns the body has not been started: no byte
    has been read. *)
Theorem stream_video_history_frame
    (w : World) (filename : string) (range_header : option string) (now : string)
    (io : WriteOutcome string) (v : VideoFile) :
  videos w !! filename = Some v →
  let old := load_json_file (watch_history w) (Some ∅) in
  let w' := (stream_video w filename range_header now io).1 in
  let r := (stream_video w filename range_header now io).2 in
  (io = WriteOk →
     watch_history w' = Some (<[filename := now]> old) ∧
     load_json_file (watch_history w') (Some ∅) !! filename = Some now ∧
     ∀ k, k ≠ filename → load_json_file (watch_history w') (Some ∅) !! k = old !! k) ∧
  (∀ left_behind, io = WriteFails left_behind → watch_history w' = left_behind) ∧
  comments w' = comments w ∧
  playlists w' = playlists w ∧
  status_of r = status_of (stream_video w filename range_header now WriteOk).2 ∧
  (∀ g, body_of r = Some g → g_state g = Fresh ∧ f_pos (g_file g) = 0).
Proof.
  intros Hv. cbv zeta.
  rewrite !stream_video_world, Hv, !(stream_video_found _ _ _ _ _ _ Hv). cbv zeta.
  cbn [watch_history comments playlists].
  split; [| split; [| split; [done | split; [done |]]]].
  - intros ->. cbn [save_json_file load_json_file]. split; [done |].
    split; [apply lookup_insert_eq |]. intros k Hk. by apply lookup_insert_ne.
  - by intros left_behind ->.
  - destruct range_header as [h |]; [destruct (Py.truthy h) |].
    + destruct (parse_range h (st_size v)) as [e | [s e]]; cbn;
        (split; [done |]); intros g; intros [= <-]; done.
    + cbn. split; [done |]. by intros g [= <-].
    + cbn. split; [done |]. by intros g [= <-].
Qed.

Lemma loop_turn_keeps_open k r f :
  f_closed f = false →
  match loop_turn k r f with
  | Yield _ g' | StopIteration g' | Raise _ g' => f_closed (g_file g') = false
  end.
Proof.
  intros Hopen. unfold loop_turn. destruct (r =? 0)%Z; [done |].
  destruct (fread f _) as [e | [data f']] eqn:Hread; [done |].
  apply fread_inv in Hread as (_ & _ & ->). by destruct data.
Qed.

Lemma gen_next_keeps_open g :
  f_closed (g_file g) = false →
  match gen_next g with
  | Yield _ g' | StopIteration g' | Raise _ g' => f_closed (g_file g') = false
  end.
Proof.
  intros Hopen. unfold gen_next. destruct (g_state g); [| by apply loop_turn_keeps_open | done].
  destruct (g_kind g) as [s e c | total c]; [| by apply loop_turn_keeps_open].
  unfold fseek. rewrite Hopen. destruct (s <? 0)%Z; [done |].
  by apply loop_turn_keeps_open.
Qed.

Lemma drain_keeps_open n : ∀ g t,
  f_closed (g_file g) = false → drain n g = Some t →
  f_closed (g_file (t_final t)) = false.
Proof.
  induction n as [| n IH]; intros g t Hopen Hrun; [discriminate |].
  cbn [drain] in Hrun. pose proof (gen_next_keeps_open g Hopen) as Hstep.
  destruct (gen_next g) as [d g' | g' | e g'].
  - destruct (drain n g') as [t' |] eqn:Hrest; [| discriminate].
    injection Hrun as <-. cbn [add_chunk t_final]. by eapply IH.
  - by injection Hrun as <-.
  - by injection Hrun as <-.
Qed.

Lemma pull_then_close_keeps_open n : ∀ g,
  f_closed (g_file g) = false → f_closed (g_file (pull_then_close n g)) = false.
Proof.
  induction n as [| n IH]; intros g Hopen; [done |].
  cbn [pull_then_close]. pose proof (gen_next_keeps_open g Hopen) as Hstep.
  destruct (gen_next g); [by apply IH | done | done].
Qed.

(** C4, what the code does: the file object that [stream_video] opens for
    a streamed response is still open when the body has been consumed to
    its end, and still open when the client went away after any number of
    chunks and the generator was closed: no statement of the generators
    or of the handler closes it. *)
Theorem stream_video_leaves_handle_open
    (w : World) (filename : string) (range_header : option string) (now : string)
    (io : WriteOutcome string) (status : Z) (headers : list (string * HeaderValue))
    (g : Generator) :
  (stream_video w filename range_header now io).2 = StreamResponse status headers g →
  (∃ t, run_body g = Some t ∧ f_closed (g_file (t_final t)) = false) ∧
  (∀ n, f_closed (g_file (pull_then_close n g)) = false).
Proof.
  intros Hresp.
  assert (Hopen : f_closed (g_file g) = false).
  { unfold stream_video in Hresp.
    destruct (videos w !! filename) as [v |]; [| discriminate].
    cbv zeta in Hresp.
    destruct range_header as [h |]; [destruct (Py.truthy h) |].
    - destruct (parse_range h _) as [e | [s e]]; [discriminate |].
      cbn in Hresp. by injection Hresp as _ _ <-.
    - cbn in Hresp. by injection Hresp as _ _ <-.
    - cbn in Hresp. by injection Hresp as _ _ <-. }
  split.
  - destruct (drain_total g) as [t Ht]. exists t. split; [done |].
    by eapply drain_keeps_open.
  - intros n. by apply pull_then_close_keeps_open.
Qed.

(** C8: the end of a range is clamped to [byte_size - 1] and a missing
    end stands for the end of the file: [bytes=0-99] against 50 bytes is
    the range [0, 49], [bytes=10-] against 1000 bytes is [10, 999]; no
    parsed range ends beyond [byte_size - 1]; and for all numbers [s] and
    [e] from 0 on that are written with no more digits than [int]
    accepts (numbers below [10 ^ 4300]), the header [bytes=s-e] is the
    range [s, min(e, byte_size-1)] and the header [bytes=s-] is the range
    [s, byte_size-1]. *)
Theorem parse_range_clamps_end :
  parse_range "bytes=0-99" 50 = inr (0, 49)%Z ∧
  parse_range "bytes=10-" 1000 = inr (10, 999)%Z ∧
  (∀ h total,
     match parse_range h total with
     | inr (_, e) => (e <= total - 1)%Z
     | inl _ => True
     end) ∧
  (∀ s e total,
     (0 <= s)%Z → (s < 10 ^ Py.max_str_digits)%Z →
     (0 <= e)%Z → (e < 10 ^ Py.max_str_digits)%Z →
     parse_range ("bytes=" +:+ Py.str s +:+ "-" +:+ Py.str e) total
     = inr (s, Z.min e (total - 1))) ∧
  (∀ s total,
     (0 <= s)%Z → (s < 10 ^ Py.max_str_digits)%Z →
     parse_range ("bytes=" +:+ Py.str s +:+ "-") total = inr (s, (total - 1)%Z)).
Proof.
  split; [reflexivity |]. split; [reflexivity |].
  split; [apply parse_range_end_clamped |]. split.
  - intros s e total Hs Hsl He Hel.
    destruct (parse_range_closed (Py.str s) (Py.str e) total)
      as (s' & e' & Hs' & He' & _ & ->);
      [by apply str_decimal | by apply str_decimal | by apply count_digits_str ..|].
    rewrite int_str in Hs', He' by done. by simplify_eq.
  - intros s total Hs Hsl.
    destruct (parse_range_open_ended (Py.str s) total)
      as (s' & Hs' & _ & ->); [by apply str_decimal | by apply count_digits_str |].
    rewrite int_str in Hs' by done. by simplify_eq.
Qed.

End Handler.

(** ** The properties at work on the sample server *)

Section Examples.

Local Open Scope Z_scope.

(** The example of the specification for a clamped end, through the
    handler: 206 for bytes 0 to 49, which is the whole file. *)
Example clamped_range_is_served :
  let r := (stream_video sample_world "a.mp4" (Some "bytes=0-99") "now" WriteOk).2 in
  status_of r = 206 ∧
  header "Content-Range" (headers_of r) = Some (HStr "bytes 0-49/50") ∧
  (delivered <$> (body_of r ≫= run_body)) = Some (v_bytes sample_video).
Proof. by vm_compute. Qed.

(** C1 fails on the code: the range of [bytes=100-200] starts beyond a
    file of 50 bytes, and the answer is 206 with
    [Content-Range: bytes 100-49/50] and [Content-Length: -50], not 416
    with [Content-Range: bytes */50]. *)
Lemma range_beyond_size_is_not_refused :
  let r := (stream_video sample_world "a.mp4" (Some "bytes=100-200") "now" WriteOk).2 in
  parse_range "bytes=100-200" 50 = inr (100, 49) ∧
  status_of r = 206 ∧
  status_of r ≠ 416 ∧
  header "Content-Range" (headers_of r) = Some (HStr "bytes 100-49/50") ∧
  header "Content-Range" (headers_of r) ≠ Some (HStr "bytes */50") ∧
  header "Content-Length" (headers_of r) = Some (HInt (-50)).
Proof. by vm_compute. Qed.

(** A range whose end is before its start, inside the file: the counter
    starts negative and [read] is asked for a negative number of bytes.
    For [bytes=10-5] that number is [-4]: the read raises, and the body
    ends at once with that error. *)
Example inverted_range_aborts_body :
  let r := (stream_video sample_world "a.mp4" (Some "bytes=10-5") "now" WriteOk).2 in
  status_of r = 206 ∧
  header "Content-Length" (headers_of r) = Some (HInt (-4)) ∧
  ((λ t, (t_chunks t, t_ending t)) <$> (body_of r ≫= run_body))
  = Some ([], Aborted ValueError_read_length).
Proof. by vm_compute. Qed.

(** For [bytes=10-8] the number is [-1]: the first read returns the forty
    bytes from byte 10 to the end of the file, and the second one, asked
    for [-41] bytes, raises. *)
Example inverted_range_reads_once :
  let r := (stream_video sample_world "a.mp4" (Some "bytes=10-8") "now" WriteOk).2 in
  status_of r = 206 ∧
  ((λ t, (t_chunks t, t_ending t)) <$> (body_of r ≫= run_body))
  = Some ([drop 10 (v_bytes sample_video)], Aborted ValueError_read_length).
Proof. by vm_compute. Qed.

Lemma unsatisfiable_range_answered_206_witness :
  let r := (stream_video sample_world "a.mp4" (Some "bytes=100-200") "now" WriteOk).2 in
  status_of r = 206 ∧
  header "Content-Range" (headers_of r) = Some (HStr "bytes 100-49/50").
Proof.
  destruct (unsatisfiable_range_answered_206 sample_world "a.mp4" "bytes=100-200" "now"
              WriteOk sample_video 100 49)
    as (Hstatus & _ & Hrange & _); [reflexivity | reflexivity | left; cbn; lia |].
  split; [exact Hstatus | exact Hrange].
Defined.

(** C3 fails on the code: a wrong unit, a start that is not a number and
    two ranges in one header each end in a 500, not in the full body. *)
Lemma malformed_range_is_not_ignored :
  let serve h := (stream_video sample_world "a.mp4" (Some h) "now" WriteOk).2 in
  serve "items=0-5" = JsonError (StrOf (ValueError_int "items=0")) 500 ∧
  serve "bytes=abc-def" = JsonError (StrOf (ValueError_int "abc")) 500 ∧
  serve "bytes=0-5,10-15" = JsonError (StrOf (ValueError_unpack 3)) 500 ∧
  status_of (serve "items=0-5") ≠ 200.
Proof. by vm_compute. Qed.

Lemma malformed_range_fails_request_witness :
  status_of (stream_video sample_world "a.mp4" (Some "bytes=0-5,10-15") "now" WriteOk).2
  = 500.
Proof.
  destruct (malformed_range_fails_request sample_world "a.mp4" "bytes=0-5,10-15" "now"
              WriteOk sample_video) as (_ & Hstatus & _);
    [reflexivity | reflexivity | reflexivity |].
  exact Hstatus.
Defined.

(** The one header that is treated as absent is the empty one. *)
Example empty_range_is_ignored :
  status_of (stream_video sample_world "a.mp4" (Some "") "now" WriteOk).2 = 200.
Proof. by vm_compute. Qed.

(** A unit that ends in [bytes] passes for [bytes]: the header
    [5bytes=0-5] is read as the range from 50 to 5. *)
Example unit_ending_in_bytes :
  parse_range "5bytes=0-5" 50 = inr (50, 5).
Proof. by vm_compute. Qed.

Lemma partial_response_serves_range_witness :
  ∃ g t, body_of (partial_response (fopen ten_bytes) 2 7 10 4 "video/mp4") = Some g ∧
         run_body g = Some t ∧
         delivered t = ["c"; "d"; "e"; "f"; "g"; "h"]%byte.
Proof.
  destruct (partial_response_serves_range ten_bytes 2 7 10 4 "video/mp4")
    as (_ & _ & _ & g & t & Hg & Hrun & _ & Hd & _); [cbn; lia .. |].
  by exists g, t.
Defined.

Lemma full_response_serves_resource_witness :
  let r := (stream_video sample_world "a.mp4" None "now" WriteOk).2 in
  status_of r = 200 ∧
  ∃ g t, body_of r = Some g ∧ run_body g = Some t ∧ delivered t = v_bytes sample_video.
Proof.
  destruct (full_response_serves_resource sample_world "a.mp4" "now" WriteOk sample_video)
    as (Hstatus & _ & g & t & Hg & Hrun & _ & Hd); [reflexivity | reflexivity |].
  split; [exact Hstatus |]. by exists g, t.
Defined.

(** The source holds ten bytes, the response declares six. *)
Lemma body_bounded_by_declared_length_witness :
  ∃ g t, body_of (full_response (fopen ten_bytes) 6 4 "video/mp4") = Some g ∧
         run_body g = Some t ∧
         Z.of_nat (length (delivered t)) <= 6 ∧
         Z.of_nat (f_pos (g_file (t_final t))) <= 6.
Proof.
  destruct (body_bounded_by_declared_length ten_bytes 2 5 6 4 "video/mp4")
    as (_ & g & t & Hg & Hrun & Hlen & Hpos & _); [lia .. |].
  by exists g, t.
Defined.

Lemma chunk_size_only_changes_granularity_witness :
  ∃ g1 t1 g2 t2,
    body_of (partial_response (fopen ten_bytes) 2 7 10 1 "video/mp4") = Some g1 ∧
    run_body g1 = Some t1 ∧
    body_of (partial_response (fopen ten_bytes) 2 7 10 1048576 "video/mp4") = Some g2 ∧
    run_body g2 = Some t2 ∧
    delivered t1 = delivered t2.
Proof.
  destruct (chunk_size_only_changes_granularity ten_bytes 2 7 10 1 1048576 "video/mp4")
    as (g1 & t1 & g2 & t2 & Hg1 & Hr1 & Hg2 & Hr2 & Hd & _); [lia | lia |].
  by exists g1, t1, g2, t2.
Defined.

(** A file of ten bytes asked for bytes 4 to 99 with the counter not
    clamped: the stream ends at the end of the file. *)
Example short_source_ends_stream :
  (λ t, (t_chunks t, t_ending t)) <$>
    run_body (mkGen (PartialGen 4 99 4) Fresh (fopen ten_bytes))
  = Some ([["e"; "f"; "g"; "h"]; ["i"; "j"]]%byte, Completed).
Proof. by vm_compute. Qed.

(** C10 fails on the code when the write of the history file fails after
    the file was opened for writing: the file is left empty, a later
    request loads an empty history, and the entry of the other video is
    gone; the response is served all the same. *)
Lemma failed_history_write_loses_entries :
  let answer := stream_video sample_world "a.mp4" None "now" (WriteFails None) in
  load_json_file (watch_history sample_world) (Some ∅) !! "b.mp4"
    = Some "2024-01-01T00:00:00"%string ∧
  load_json_file (watch_history answer.1) (Some ∅) !! "b.mp4" = None ∧
  load_json_file (watch_history answer.1) (Some ∅) !! "a.mp4" = None ∧
  status_of answer.2 = 200.
Proof. by vm_compute. Qed.

Lemma stream_video_history_frame_witness :
  let w' := (stream_video sample_world "a.mp4" None "now" WriteOk).1 in
  watch_history w'
    = Some (<["a.mp4" := "now"]> {[ "b.mp4" := "2024-01-01T00:00:00" ]}) ∧
  comments w' = comments sample_world ∧
  playlists w' = playlists sample_world.
Proof.
  destruct (stream_video_history_frame sample_world "a.mp4" None "now" WriteOk sample_video)
    as (Hok & _ & Hc & Hp & _); [reflexivity |].
  destruct (Hok eq_refl) as (Hh & _).
  split; [exact Hh |]. by split.
Defined.

Lemma stream_video_leaves_handle_open_witness :
  ∃ g t, body_of (stream_video sample_world "a.mp4" None "now" WriteOk).2 = Some g ∧
         run_body g = Some t ∧
         f_closed (g_file (t_final t)) = false ∧
         f_closed (g_file (pull_then_close 0 g)) = false.
Proof.
  destruct (stream_video_leaves_handle_open sample_world "a.mp4" None "now" WriteOk 200
              (headers_of (stream_video sample_world "a.mp4" None "now" WriteOk).2)
              (mkGen (FullGen 50 Config.CHUNK_SIZE) Fresh (fopen (v_bytes sample_video))))
    as ((t & Hrun & Hopen) & Hclose); [reflexivity |].
  eexists _, t. split; [reflexivity |]. split; [exact Hrun |]. split; [exact Hopen |].
  apply (Hclose 0%nat).
Defined.

(** The failure path as well: the header does not parse after the file
    was opened; the response is a 500 and carries no generator through
    which the handle could be reached, let alone closed. *)
Example failed_request_drops_handle :
  body_of (stream_video sample_world "a.mp4" (Some "bytes=abc-def") "now" WriteOk).2 = None.
Proof. by vm_compute. Qed.

End Examples.

(** ** More about the streaming endpoint *)

Section StreamingMore.

Lemma slice_app (data : list byte) (a b c : Z) :
  (0 <= a)%Z → (a <= b)%Z → (b < c)%Z →
  slice data a b ++ slice data (b + 1) c = slice data a c.
Proof.
  intros Ha Hab Hbc. unfold slice.
  replace (Z.to_nat (b + 1)) with (Z.to_nat a + Z.to_nat (b - a + 1)) by lia.
  rewrite <- drop_drop, take_take_drop. f_equal. lia.
Qed.

(** X2: a well-formed header, written out: for numbers [0 <= s <= e] with
    [s] inside the file and [e] written with no more digits than [int]
    accepts ([e] below [10 ^ 4300]), [bytes=s-e] is answered with status
    206, a [Content-Length] of [min(e, size-1) - s + 1] and exactly the
    bytes from [s] to [min(e, size-1)]; [bytes=s-] is answered with all
    the bytes from [s] on. *)
Theorem range_header_end_to_end
    (w : World) (filename now : string) (io : WriteOutcome string)
    (v : VideoFile) (s e : Z) :
  videos w !! filename = Some v →
  st_size v = Z.of_nat (length (v_bytes v)) →
  (0 <= s)%Z → (s <= e)%Z → (s < st_size v)%Z → (e < 10 ^ Py.max_str_digits)%Z →
  let closed := (stream_video w filename
                   (Some ("bytes=" +:+ Py.str s +:+ "-" +:+ Py.str e)) now io).2 in
  let open := (stream_video w filename (Some ("bytes=" +:+ Py.str s +:+ "-")) now io).2 in
  let last := Z.min e (st_size v - 1) in
  (status_of closed = 206%Z ∧
   header "Content-Length" (headers_of closed) = Some (HInt (last - s + 1)) ∧
   ∃ g t, body_of closed = Some g ∧ run_body g = Some t ∧ t_ending t = Completed ∧
          delivered t = slice (v_bytes v) s last) ∧
  (status_of open = 206%Z ∧
   ∃ g t, body_of open = Some g ∧ run_body g = Some t ∧ t_ending t = Completed ∧
          delivered t = drop (Z.to_nat s) (v_bytes v)).
Proof.
  intros Hv Hsize Hs Hse Hin Hlimit. cbv zeta.
  destruct (parse_range_closed (Py.str s) (Py.str e) (st_size v))
    as (s' & e' & Hs' & He' & _ & Hclosed);
    [apply str_decimal; lia | apply str_decimal; lia
    | apply count_digits_str; lia | apply count_digits_str; lia |].
  rewrite int_str in Hs', He' by lia. injection Hs' as <-. injection He' as <-.
  destruct (parse_range_open_ended (Py.str s) (st_size v))
    as (s' & Hs' & _ & Hopen); [by apply str_decimal | apply count_digits_str; lia |].
  rewrite int_str in Hs' by lia. injection Hs' as <-.
  split.
  - destruct (stream_video_serves_parsed_range w filename
                ("bytes=" +:+ Py.str s +:+ "-" +:+ Py.str e) now io v _ _ Hv Hsize
                eq_refl Hclosed) as (Hst & g & t & Hg & Hrun & Hend & Hd); [lia |].
    split; [exact Hst |]. split; [| by exists g, t].
    rewrite (stream_video_found _ _ _ _ _ _ Hv). cbv zeta.
    change (Py.truthy _) with true. cbv iota. by rewrite Hclosed.
  - destruct (stream_video_serves_parsed_range w filename
                ("bytes=" +:+ Py.str s +:+ "-") now io v _ _ Hv Hsize
                eq_refl Hopen) as (Hst & g & t & Hg & Hrun & Hend & Hd); [lia |].
    split; [exact Hst |]. exists g, t. repeat split; try done.
    rewrite Hd. unfold slice. apply take_ge. rewrite length_drop. lia.
Qed.

(** X3: a suffix range, [bytes=-N], is never served: whatever follows the
    dash, the first number is the empty text, the handler's [int] fails (or
    the unpacking does), and the answer is a 500. *)
Theorem suffix_range_fails
    (w : World) (filename now t : string) (io : WriteOutcome string) (v : VideoFile) :
  videos w !! filename = Some v →
  (∃ e, parse_range ("bytes=-" +:+ t) (st_size v) = inl e) ∧
  status_of (stream_video w filename (Some ("bytes=-" +:+ t)) now io).2 = 500%Z.
Proof.
  intros Hv.
  assert (Hp : ∃ e, parse_range ("bytes=-" +:+ t) (st_size v) = inl e).
  { unfold parse_range, Py.replace.
    change ("bytes=-" +:+ t) with (String "b" ("ytes=" +:+ String "-" t)).
    cbn [Py.replace_from].
    change (String "b" ("ytes=" +:+ String "-" t)) with ("bytes=" +:+ String "-" t).
    rewrite prefix_append.
    change (String.length "bytes=" - 1) with (String.length "ytes=").
    rewrite replace_from_skip. change ("" +:+ ?x) with x.
    cbn [Py.replace_from String.prefix]. destruct (ascii_dec "b" "-"); [done |].
    cbn [Py.split]. change (Ascii.eqb "-" "-") with true. cbv iota.
    destruct (Py.split _ "-") as [| b [| c l]]; eauto. }
  split; [exact Hp |]. destruct Hp as [e He].
  rewrite (stream_video_found _ _ _ _ _ _ Hv). cbv zeta.
  change (Py.truthy _) with true. cbv iota. by rewrite He.
Qed.

(** X4: two neighbouring ranges, fetched one after the other with any two
    chunk sizes, put together give the bytes of the range that spans
    them. *)
Theorem neighbouring_ranges_join
    (data : list byte) (a b c total c1 c2 c3 : Z) (mime : string) :
  (0 <= a)%Z → (a <= b)%Z → (b < c)%Z → (c < Z.of_nat (length data))%Z →
  (1 <= c1)%Z → (1 <= c2)%Z → (1 <= c3)%Z →
  ∃ t1 t2 t3,
    body_of (partial_response (fopen data) a b total c1 mime) ≫= run_body = Some t1 ∧
    body_of (partial_response (fopen data) (b + 1) c total c2 mime) ≫= run_body = Some t2 ∧
    body_of (partial_response (fopen data) a c total c3 mime) ≫= run_body = Some t3 ∧
    delivered t1 ++ delivered t2 = delivered t3.
Proof.
  intros Ha Hab Hbc Hc H1 H2 H3.
  destruct (run_partial_slice data a b c1) as (t1 & Hr1 & _ & Hd1); [lia .. |].
  destruct (run_partial_slice data (b + 1) c c2) as (t2 & Hr2 & _ & Hd2); [lia .. |].
  destruct (run_partial_slice data a c c3) as (t3 & Hr3 & _ & Hd3); [lia .. |].
  exists t1, t2, t3. cbn [partial_response body_of mbind option_bind].
  repeat split; try done. rewrite Hd1, Hd2, Hd3. by apply slice_app.
Qed.

(** X5: the watch is recorded before the header is looked at: a request
    that ends in a 500 because its [Range] header does not parse has set
    the history entry all the same, while a request for a file that does
    not exist changes nothing at all. *)
Theorem history_recorded_before_parsing
    (w : World) (filename h now : string) (v : VideoFile) (e : Exn) :
  videos w !! filename = Some v →
  Py.truthy h = true →
  parse_range h (st_size v) = inl e →
  let answer := stream_video w filename (Some h) now WriteOk in
  status_of answer.2 = 500%Z ∧
  (load_json_file (watch_history answer.1) (Some ∅)) !! filename = Some now ∧
  ∀ missing range_header io,
    videos w !! missing = None →
    stream_video w missing range_header now io
    = (w, JsonError (Text "Video not found") 404%Z).
Proof.
  intros Hv Hh Hp. cbv zeta. rewrite (stream_video_found _ _ _ _ _ _ Hv). cbv zeta.
  rewrite Hh, Hp. cbn [fst snd]. split; [done |]. split.
  - cbn. apply lookup_insert_eq.
  - intros missing range_header io Hm. unfold stream_video. by rewrite Hm.
Qed.

End StreamingMore.

(** ** The first streaming endpoint *)

Section ServeVideo.

Lemma serve_turn_released_or_reading c f :
  f_closed f = false →
  match serve_turn c f with
  | ServeYield _ (Reading f') => f_closed f' = false
  | ServeYield _ _ => False
  | ServeStop g | ServeRaise _ g => released g
  end.
Proof.
  intros Hopen. unfold serve_turn.
  destruct (fread f c) as [e | [chunk f']] eqn:Hread; [done |].
  apply fread_inv in Hread as (_ & _ & ->). by destruct chunk.
Qed.

Lemma serve_turn_eof c f :
  f_closed f = false → (0 <= c)%Z →
  take (Z.to_nat c) (drop (f_pos f) (f_data f)) = [] →
  serve_turn c f = ServeStop (Finished (Some (mkFile (f_data f) (f_pos f + 0) true))).
Proof.
  intros Hopen Hc Hnil. unfold serve_turn. rewrite (fread_open _ _ Hopen Hc).
  by rewrite Hnil.
Qed.

Lemma serve_turn_yield c f :
  f_closed f = false → (0 <= c)%Z →
  take (Z.to_nat c) (drop (f_pos f) (f_data f)) ≠ [] →
  serve_turn c f =
    let chunk := take (Z.to_nat c) (drop (f_pos f) (f_data f)) in
    ServeYield chunk (Reading (mkFile (f_data f) (f_pos f + length chunk) false)).
Proof.
  intros Hopen Hc Hne. unfold serve_turn. rewrite (fread_open _ _ Hopen Hc).
  by destruct (take _ _).
Qed.

Lemma serve_drain_reading n : ∀ c f,
  (1 <= c)%Z → f_closed f = false → length (f_data f) - f_pos f < n →
  ∃ chunks g,
    serve_drain n c (Reading f) = Some (chunks, g) ∧
    concat chunks = drop (f_pos f) (f_data f) ∧
    released g ∧
    Forall (λ ch : list byte, 1 <= length ch ∧ (Z.of_nat (length ch) <= c)%Z) chunks.
Proof.
  induction n as [| n IH]; intros c f Hc Hopen Hfuel; [lia |].
  cbn [serve_drain serve_next].
  remember (drop (f_pos f) (f_data f)) as rest eqn:Erest.
  assert (Hrest : length rest = length (f_data f) - f_pos f)
    by (subst rest; apply length_drop).
  destruct (decide (take (Z.to_nat c) rest = [])) as [Hnil | Hne].
  - rewrite serve_turn_eof by (subst; done || lia).
    exists [], (Finished (Some (mkFile (f_data f) (f_pos f + 0) true))).
    repeat split; try done. cbn [concat].
    destruct rest; [done |]. destruct (Z.to_nat c) eqn:E; [lia | discriminate].
  - rewrite serve_turn_yield by (subst; done || lia). cbv zeta. rewrite <- Erest.
    assert (Hlen : 1 <= length (take (Z.to_nat c) rest) <= length rest).
    { rewrite length_take. destruct (take (Z.to_nat c) rest) eqn:E; [done |].
      apply (f_equal length) in E. rewrite length_take in E. cbn [length] in E. lia. }
    destruct (IH c (mkFile (f_data f) (f_pos f + length (take (Z.to_nat c) rest)) false))
      as (chunks & g & Hrun & Hbytes & Hrel & Hsizes); [done | done | cbn [f_data f_pos]; lia |].
    cbn [f_data f_pos] in Hbytes.
    exists (take (Z.to_nat c) rest :: chunks), g.
    rewrite Hrun. repeat split; try done.
    + cbn [concat]. rewrite Hbytes, <- drop_drop, <- Erest.
      rewrite <- (take_length_take (Z.to_nat c) rest) at 1. apply take_drop.
    + constructor; [| done]. rewrite length_take in *. lia.
Qed.

(** X6: [serve_video] of the first iteration, for any chunk size of at
    least one byte: the body is the whole file, in chunks of one to
    [chunk_size] bytes, and the file object it opened is closed when the
    body is exhausted; it is closed as well when the generator is closed
    after any number of chunks, and was never opened when the generator is
    closed before its first chunk. *)
Theorem serve_video_delivers_and_releases (data : list byte) (chunk_size : Z) :
  (1 <= chunk_size)%Z →
  (∃ chunks g,
     serve_drain (S (length data)) chunk_size (NotStarted data) = Some (chunks, g) ∧
     concat chunks = data ∧
     released g ∧
     Forall (λ ch : list byte,
               1 <= length ch ∧ (Z.of_nat (length ch) <= chunk_size)%Z) chunks) ∧
  (∀ n, released (serve_pull_then_close n chunk_size (NotStarted data))) ∧
  serve_pull_then_close 0 chunk_size (NotStarted data) = Finished None.
Proof.
  intros Hc. split; [| split; [| done]].
  - destruct (serve_drain_reading (S (length data)) chunk_size (fopen data))
      as (chunks & g & Hrun & Hbytes & Hrel & Hsizes); [done | done | cbn; lia |].
    exists chunks, g. split; [| done].
    destruct (length data); exact Hrun.
  - assert (Hreading : ∀ n f, f_closed f = false →
              released (serve_pull_then_close n chunk_size (Reading f))).
    { induction n as [| n IH]; intros f Hopen; [done |].
      cbn [serve_pull_then_close serve_next].
      pose proof (serve_turn_released_or_reading chunk_size f Hopen) as Hturn.
      destruct (serve_turn chunk_size f) as [ch [d | f' | o] | g | e g]; try done.
      by apply IH. }
    intros [| n]; [done |]. cbn [serve_pull_then_close serve_next].
    pose proof (serve_turn_released_or_reading chunk_size (fopen data) eq_refl) as Hturn.
    destruct (serve_turn chunk_size (fopen data)) as [ch [d | f' | o] | g | e g]; try done.
    by apply Hreading.
Qed.

End ServeVideo.

(** ** Pages of the video list *)

Section Pages.

Context {A : Type}.

Lemma slice_forward (l : list A) (start count : Z) :
  (0 <= start)%Z → (0 <= count)%Z →
  PyList.slice l start (start + count) = take (Z.to_nat count) (drop (Z.to_nat start) l).
Proof.
  intros Hs Hc. unfold PyList.slice, PyList.clamp_index.
  destruct (Z.ltb_spec start 0); [lia |].
  destruct (Z.ltb_spec (start + count) 0); [lia |].
  rewrite take_drop_commute.
  destruct (Z.le_gt_cases (start + count) (Z.of_nat (length l))) as [Hin | Hout].
  - rewrite !Z.min_l by lia. do 2 f_equal. lia.
  - rewrite (Z.min_r (start + count)) by lia. rewrite Nat2Z.id.
    rewrite (take_ge l (Z.to_nat start + Z.to_nat count)) by lia.
    rewrite take_ge by lia.
    destruct (Z.le_gt_cases start (Z.of_nat (length l))).
    + by rewrite Z.min_l by lia.
    + rewrite Z.min_r by lia. rewrite Nat2Z.id. by rewrite !drop_ge by lia.
Qed.

Lemma page_forward (k : Z) (l : list A) (p : Z) :
  (1 <= k)%Z → (1 <= p)%Z →
  page_videos (paginate k l p) = take (Z.to_nat k) (drop (Z.to_nat ((p - 1) * k)) l).
Proof. intros Hk Hp. cbn [paginate page_videos]. apply slice_forward; nia. Qed.

Lemma pages_concat (k : Z) (l : list A) (m : nat) :
  (1 <= k)%Z →
  concat ((λ p : nat, page_videos (paginate k l (Z.of_nat p))) <$> seq 1 m)
  = take (m * Z.to_nat k) l.
Proof.
  intros Hk. induction m as [| m IH]; [done |].
  rewrite seq_S, fmap_app, concat_app, IH. cbn [fmap list_fmap concat].
  rewrite app_nil_r, page_forward by lia.
  replace (Z.to_nat ((Z.of_nat (1 + m) - 1) * k)) with (m * Z.to_nat k) by nia.
  rewrite take_take_drop. f_equal. lia.
Qed.

Lemma page_count_bounds (k len : Z) :
  (1 <= k)%Z → (0 <= len)%Z →
  let n := ((len + k - 1) / k)%Z in
  (0 <= n)%Z ∧ (len <= n * k)%Z ∧ ((n - 1) * k < len ∨ (len = 0 ∧ n = 0))%Z.
Proof.
  intros Hk Hlen. cbv zeta.
  pose proof (Z.div_mod (len + k - 1) k ltac:(lia)) as Hdm.
  pose proof (Z.mod_pos_bound (len + k - 1) k ltac:(lia)) as Hmod.
  assert (0 <= (len + k - 1) / k)%Z by (apply Z.div_pos; lia).
  repeat split; [done | nia |].
  destruct (Z.eq_dec len 0%Z) as [-> | ?]; [right | left; nia].
  split; [done |]. apply Z.div_small. lia.
Qed.

(** X7: the pages that [list_videos] cuts from one and the same list, for
    any page size of at least one: pages 1 to [pages] put one after the
    other are the whole list, in order; each of them holds between one
    and [per_page] videos; every page after the last is empty.  (Every
    request builds its list anew.  Requests without [shuf] sort it by the
    date of modification and cut their pages from the same list as long
    as the directory does not change; a request with [shuf] cuts its page
    from an order of its own.) *)
Theorem pages_partition_the_list (per_page : Z) (videos : list A) :
  (1 <= per_page)%Z →
  let pages := page_pages (paginate per_page videos 1) in
  concat ((λ p : nat, page_videos (paginate per_page videos (Z.of_nat p)))
            <$> seq 1 (Z.to_nat pages)) = videos ∧
  (∀ p, (1 <= p)%Z → (p <= pages)%Z →
        1 <= length (page_videos (paginate per_page videos p)) ∧
        (Z.of_nat (length (page_videos (paginate per_page videos p))) <= per_page)%Z) ∧
  (∀ p, (pages < p)%Z → page_videos (paginate per_page videos p) = []) ∧
  (∀ p, page_pages (paginate per_page videos p) = pages ∧
        page_total (paginate per_page videos p) = Z.of_nat (length videos)).
Proof.
  intros Hk. cbv zeta. cbn [paginate page_pages page_total].
  destruct (page_count_bounds per_page (Z.of_nat (length videos)) Hk ltac:(lia))
    as (Hn0 & Hcover & Hlast).
  set (n := ((Z.of_nat (length videos) + per_page - 1) / per_page)%Z) in *.
  repeat split.
  - rewrite pages_concat by done. apply take_ge. nia.
  - rewrite page_forward by lia. rewrite length_take, length_drop. nia.
  - rewrite page_forward by lia. rewrite length_take. lia.
  - intros p Hp. rewrite page_forward by lia.
    rewrite drop_ge; [by rewrite take_nil | nia].
Qed.

(** X8: a page number below one is not refused.  Page 0 is always empty,
    and page [-j] is the block of [per_page] videos that ends [j] blocks
    before the end of the list (empty only when the list is that short). *)
Theorem pages_below_one (per_page : Z) (videos : list A) (j : Z) :
  (1 <= per_page)%Z → (1 <= j)%Z →
  let len := Z.of_nat (length videos) in
  page_videos (paginate per_page videos 0) = [] ∧
  page_videos (paginate per_page videos (- j))
  = drop (Z.to_nat (len - (j + 1) * per_page))
      (take (Z.to_nat (len - j * per_page)) videos) ∧
  ((j * per_page < len)%Z → page_videos (paginate per_page videos (- j)) ≠ []).
Proof.
  intros Hk Hj. cbv zeta. cbn [paginate page_videos].
  unfold PyList.slice, PyList.clamp_index.
  assert (Heq : drop (Z.to_nat (Z.max 0 (Z.of_nat (length videos) + (- j - 1) * per_page)))
                  (take (Z.to_nat (Z.max 0 (Z.of_nat (length videos)
                                              + ((- j - 1) * per_page + per_page)))) videos)
                = drop (Z.to_nat (Z.of_nat (length videos) - (j + 1) * per_page))
                    (take (Z.to_nat (Z.of_nat (length videos) - j * per_page)) videos)).
  { f_equal; [lia |]. f_equal. lia. }
  repeat split.
  - destruct (Z.ltb_spec ((0 - 1) * per_page) 0); [| lia].
    replace ((0 - 1) * per_page + per_page)%Z with 0%Z by lia.
    rewrite Z.ltb_irrefl, Z.min_l by lia. by rewrite take_0, drop_nil.
  - destruct (Z.ltb_spec ((- j - 1) * per_page) 0); [| nia].
    destruct (Z.ltb_spec ((- j - 1) * per_page + per_page) 0); [| nia]. exact Heq.
  - intros Hlong.
    destruct (Z.ltb_spec ((- j - 1) * per_page) 0); [| nia].
    destruct (Z.ltb_spec ((- j - 1) * per_page + per_page) 0); [| nia].
    rewrite Heq. intros Hnil. apply (f_equal length) in Hnil.
    rewrite length_drop, length_take in Hnil. cbn [length] in Hnil. nia.
Qed.

End Pages.

(** ** The next video of a playlist *)

Section NextVideo.

Lemma index_first (x : string) (l : list string) (i : nat) :
  l !! i = Some x → (∀ j, j < i → l !! j ≠ Some x) → PyList.index x l = Some i.
Proof.
  revert i. induction l as [| y l IH]; intros i Hi Hfirst; [done |].
  cbn [PyList.index]. destruct i as [| i].
  - cbn in Hi. injection Hi as ->. by rewrite String.eqb_refl.
  - destruct (String.eqb_spec y x) as [-> | Hne].
    + by destruct (Hfirst 0 ltac:(lia)).
    + rewrite (IH i); [done | done |].
      intros j Hj. apply (Hfirst (S j)). lia.
Qed.

Lemma index_absent (x : string) (l : list string) : x ∉ l → PyList.index x l = None.
Proof.
  induction l as [| y l IH]; [done |]. intros Hx. cbn [PyList.index].
  apply not_elem_of_cons in Hx as [Hne Hx].
  destruct (String.eqb_spec y x); [done |]. by rewrite IH.
Qed.

(** X9: in a playlist without repetitions, the video that follows
    [filename] in the player is the next entry of the list; the last entry
    has none, and neither has a file that is not in the playlist. *)
Theorem next_video_is_successor (playlist : list string) :
  NoDup playlist →
  (∀ i x, playlist !! i = Some x → next_video playlist x = playlist !! (i + 1)) ∧
  (∀ x, x ∉ playlist → next_video playlist x = None).
Proof.
  intros Hnd. split.
  - intros i x Hi. unfold next_video. rewrite (index_first x playlist i Hi).
    + destruct (Z.ltb_spec (Z.of_nat i) (Z.of_nat (length playlist) - 1)); [done |].
      symmetry. apply lookup_ge_None. lia.
    + intros j Hj Hjx. pose proof (NoDup_lookup _ _ _ _ Hnd Hi Hjx). lia.
  - intros x Hx. unfold next_video. by rewrite index_absent.
Qed.

End NextVideo.

(** ** The playlist manager *)

Section PlaylistFacts.

Lemma playlists_eta (s : Playlists) :
  {| in_memory := in_memory s; on_disk := on_disk s |} = s.
Proof. by destruct s. Qed.

Lemma remove_first (x : string) (l1 l2 : list string) :
  x ∉ l1 → PyList.remove x (l1 ++ x :: l2) = l1 ++ l2.
Proof.
  induction l1 as [| y l1 IH]; intros Hx; cbn [app PyList.remove].
  - by rewrite String.eqb_refl.
  - apply not_elem_of_cons in Hx as [Hne Hx].
    destruct (String.eqb_spec y x); [done |]. by rewrite IH.
Qed.

Lemma dd_getitem_present d name l :
  d !! name = Some l → dd_getitem d name = (l, d).
Proof. intros H. unfold dd_getitem. by rewrite H. Qed.

Lemma dd_getitem_default d name :
  dd_getitem d name = (default [] (d !! name), (dd_getitem d name).2) ∧
  (dd_getitem d name).2 !! name = Some (default [] (d !! name)) ∧
  ∀ other, other ≠ name → (dd_getitem d name).2 !! other = d !! other.
Proof.
  unfold dd_getitem. destruct (d !! name) as [l |] eqn:H; cbn [fst snd default].
  - done.
  - split; [done |]. split; [apply lookup_insert_eq |].
    intros other Hne. by apply lookup_insert_ne.
Qed.

Lemma add_to_playlist_eq s name video io :
  add_to_playlist s name video io =
    let l := default [] (in_memory s !! name) in
    let d := (dd_getitem (in_memory s) name).2 in
    if bool_decide (video ∈ l) then ({| in_memory := d; on_disk := on_disk s |}, false)
    else
      (save_playlists {| in_memory := <[name := l ++ [video]]> d; on_disk := on_disk s |} io,
       true).
Proof.
  unfold add_to_playlist.
  destruct (dd_getitem_default (in_memory s) name) as (Hget & _). by rewrite Hget.
Qed.

Lemma remove_from_playlist_eq s name video io :
  remove_from_playlist s name video io =
    let l := default [] (in_memory s !! name) in
    let d := (dd_getitem (in_memory s) name).2 in
    if bool_decide (video ∈ l) then
      (save_playlists
         {| in_memory := <[name := PyList.remove video l]> d; on_disk := on_disk s |} io,
       true)
    else ({| in_memory := d; on_disk := on_disk s |}, false).
Proof.
  unfold remove_from_playlist.
  destruct (dd_getitem_default (in_memory s) name) as (Hget & _). by rewrite Hget.
Qed.

Lemma dd_getitem_keeps d name l : d !! name = Some l → (dd_getitem d name).2 = d.
Proof. intros H. by rewrite (dd_getitem_present d name l H). Qed.

(** X10: [add_to_playlist] never puts a video into a playlist twice.
    After a call the video is in the playlist; a second call answers
    [False] and changes nothing, in memory or on disk; a playlist without
    repetitions stays without; and no other playlist is touched. *)
Theorem add_to_playlist_once
    (s : Playlists) (name video : string) (io1 io2 : WriteOutcome (list string)) :
  let s1 := (add_to_playlist s name video io1).1 in
  video ∈ default [] (in_memory s1 !! name) ∧
  add_to_playlist s1 name video io2 = (s1, false) ∧
  (NoDup (default [] (in_memory s !! name)) →
   NoDup (default [] (in_memory s1 !! name))) ∧
  (∀ other, other ≠ name → in_memory s1 !! other = in_memory s !! other).
Proof.
  cbv zeta.
  destruct (dd_getitem_default (in_memory s) name) as (_ & Hname & Hother).
  set (l := default [] (in_memory s !! name)) in *.
  set (d := (dd_getitem (in_memory s) name).2) in *.
  assert (Hagain : ∀ s1 l1, in_memory s1 !! name = Some l1 → video ∈ l1 →
            add_to_playlist s1 name video io2 = (s1, false)).
  { intros s1 l1 Hl1 Hin. rewrite add_to_playlist_eq. cbv zeta.
    rewrite Hl1, (dd_getitem_keeps _ _ _ Hl1). cbn [default].
    rewrite bool_decide_eq_true_2 by done. by rewrite playlists_eta. }
  rewrite (add_to_playlist_eq s). cbv zeta. fold l d.
  destruct (decide (video ∈ l)) as [Hin | Hnin].
  - rewrite bool_decide_eq_true_2 by done. cbn [fst in_memory].
    rewrite Hname. cbn [default]. repeat split; try done.
    by apply (Hagain _ l).
  - rewrite bool_decide_eq_false_2 by done. cbn [fst save_playlists in_memory].
    rewrite lookup_insert_eq. cbn [default].
    assert (Hnow : video ∈ l ++ [video]) by (apply elem_of_app; right; by left).
    repeat split; try done.
    + apply (Hagain _ (l ++ [video])); [apply lookup_insert_eq | done].
    + intros Hnd. apply NoDup_app. repeat split; [done | | apply NoDup_singleton].
      intros x Hx Hx'. apply list_elem_of_singleton in Hx' as ->. done.
    + intros other Hne. rewrite lookup_insert_ne by done. by apply Hother.
Qed.

Lemma add_then_remove_steps
    (s : Playlists) (name video : string) (io1 io2 : WriteOutcome (list string)) :
  video ∉ default [] (in_memory s !! name) →
  let '(s1, added) := add_to_playlist s name video io1 in
  let '(s2, removed) := remove_from_playlist s1 name video io2 in
  added = true ∧ removed = true ∧
  in_memory s2 !! name = Some (default [] (in_memory s !! name)) ∧
  (∀ other, other ≠ name → in_memory s2 !! other = in_memory s !! other) ∧
  (∀ s0 l1 l2 io,
     in_memory s0 !! name = Some (l1 ++ video :: l2) → video ∉ l1 →
     (remove_from_playlist s0 name video io).2 = true ∧
     in_memory (remove_from_playlist s0 name video io).1 !! name = Some (l1 ++ l2)).
Proof.
  intros Hnin.
  destruct (dd_getitem_default (in_memory s) name) as (_ & Hname & Hother).
  rewrite (add_to_playlist_eq s). cbv zeta.
  set (l := default [] (in_memory s !! name)) in *.
  set (d := (dd_getitem (in_memory s) name).2) in *.
  rewrite bool_decide_eq_false_2 by done. cbv beta iota.
  rewrite remove_from_playlist_eq. cbv zeta. cbn [save_playlists in_memory on_disk].
  rewrite lookup_insert_eq, (dd_getitem_keeps _ name (l ++ [video]))
    by apply lookup_insert_eq.
  cbn [default].
  rewrite bool_decide_eq_true_2 by (apply elem_of_app; right; by left).
  cbv beta iota. cbn [save_playlists in_memory on_disk]. unfold id.
  rewrite remove_first, app_nil_r by done.
  split; [done |]. split; [done |]. split; [apply lookup_insert_eq |].
  split.
  - intros other Hne. rewrite !lookup_insert_ne by done. by apply Hother.
  - intros s0 l1 l2 io Hs0 Hl1. rewrite remove_from_playlist_eq. cbv zeta.
    rewrite Hs0, (dd_getitem_keeps _ _ _ Hs0). cbn [default].
    rewrite bool_decide_eq_true_2 by (apply elem_of_app; right; by left).
    cbn [fst snd save_playlists in_memory]. split; [done |].
    rewrite lookup_insert_eq. unfold id. by rewrite remove_first.
Qed.

(** X11: putting a video that is not in the playlist into it and taking it
    out again leaves the playlist with the videos it had, in their order
    (an empty playlist if there was none of that name); both calls answer
    [True].  In general [remove_from_playlist] takes out the first
    occurrence of the video and nothing else. *)
Theorem add_then_remove_restores
    (s : Playlists) (name video : string) (io1 io2 : WriteOutcome (list string)) :
  video ∉ default [] (in_memory s !! name) →
  let added := add_to_playlist s name video io1 in
  let removed := remove_from_playlist added.1 name video io2 in
  added.2 = true ∧ removed.2 = true ∧
  in_memory removed.1 !! name = Some (default [] (in_memory s !! name)) ∧
  (∀ other, other ≠ name → in_memory removed.1 !! other = in_memory s !! other) ∧
  (∀ s0 l1 l2 io,
     in_memory s0 !! name = Some (l1 ++ video :: l2) → video ∉ l1 →
     (remove_from_playlist s0 name video io).2 = true ∧
     in_memory (remove_from_playlist s0 name video io).1 !! name = Some (l1 ++ l2)).
Proof.
  intros Hnin. cbv zeta.
  pose proof (add_then_remove_steps s name video io1 io2 Hnin) as Hsteps.
  destruct (add_to_playlist s name video io1) as [s1 added]. cbn [fst snd].
  destruct (remove_from_playlist s1 name video io2) as [s2 removed]. exact Hsteps.
Qed.

(** X12: looking at a playlist that does not exist creates it.
    [get_playlist] answers the empty list and leaves an empty playlist of
    that name in memory (the file is not written), so the route never
    answers 404, the name shows up among all playlists, and a later
    [create_playlist] of that name answers [False] where it would have
    answered [True]. *)
Theorem get_playlist_creates_playlist
    (dir : gmap string VideoFile) (s : Playlists) (name : string)
    (io : WriteOutcome (list string)) :
  in_memory s !! name = None →
  let looked := get_playlist s name in
  looked.2 = [] ∧
  get_all_playlists looked.1 = <[name := []]> (get_all_playlists s) ∧
  on_disk looked.1 = on_disk s ∧
  get_playlist_route dir s name = (looked.1, PlaylistVideos []) ∧
  (create_playlist s name io).2 = true ∧
  (create_playlist looked.1 name io).2 = false.
Proof.
  intros Hnone. cbv zeta. unfold get_playlist_route, get_playlist, dd_getitem.
  rewrite Hnone. cbn [fst snd]. repeat split.
  - unfold create_playlist. by rewrite bool_decide_eq_false_2 by (rewrite Hnone; by intros [? ?]).
  - unfold create_playlist. cbn [in_memory].
    by rewrite bool_decide_eq_true_2 by (rewrite lookup_insert_eq; eauto).
Qed.

(** X13: what a [True] is worth.  When the write goes through, each of the
    four changing methods leaves the file equal to the dictionary whenever
    it answers [True], and every method that answers [False] has not
    touched the file.  But in the POST route a write that fails is not
    noticed: the answer is still [success: True], and reloading the file
    throws the addition away. *)
Theorem playlist_file_follows_memory
    (s : Playlists) (name video : string) (io : WriteOutcome (list string)) :
  let saved (r : Playlists * bool) :=
    (r.2 = true → io = WriteOk → on_disk r.1 = Some (in_memory r.1)) ∧
    (r.2 = false → on_disk r.1 = on_disk s) in
  saved (create_playlist s name io) ∧
  saved (add_to_playlist s name video io) ∧
  saved (remove_from_playlist s name video io) ∧
  saved (delete_playlist s name io) ∧
  (∀ d, on_disk s = Some d → Py.truthy name = true → Py.truthy video = true →
        video ∉ default [] (in_memory s !! name) →
        handle_playlists s POST (mkPlaylistData (Some name) (Some video))
          (WriteFails (Some d))
        = ({| in_memory := d; on_disk := Some d |},
           Outcome true "Video added to playlist")).
Proof.
  cbv zeta. repeat split.
  - unfold create_playlist. case_bool_decide; [done |]. cbn. by intros _ ->.
  - unfold create_playlist. by case_bool_decide.
  - unfold add_to_playlist. destruct (dd_getitem _ _) as [l d].
    case_bool_decide; [done |]. cbn. by intros _ ->.
  - unfold add_to_playlist. destruct (dd_getitem _ _) as [l d]. by case_bool_decide.
  - unfold remove_from_playlist. destruct (dd_getitem _ _) as [l d].
    case_bool_decide; [| done]. cbn. by intros _ ->.
  - unfold remove_from_playlist. destruct (dd_getitem _ _) as [l d]. by case_bool_decide.
  - unfold delete_playlist. case_bool_decide; [| done]. cbn. by intros _ ->.
  - unfold delete_playlist. by case_bool_decide.
  - intros d Hd Hname Hvideo Hnin. unfold handle_playlists, truthy_opt.
    cbn [d_name d_video]. rewrite Hname, Hvideo, add_to_playlist_eq. cbv zeta.
    rewrite bool_decide_eq_false_2 by done.
    unfold load_playlists. by cbn [save_playlists in_memory on_disk].
Qed.

(** X14: the two playlist routes differ on a name that is taken.  In
    [iter_8.py] a POST with a name and no video empties the playlist of
    that name, and the file with it; in [web.py] [create_playlist] answers
    [False] and leaves the playlist as it is.  With a video, the POST of
    [iter_8.py] adds it once: repeating the request changes nothing. *)
Theorem create_on_taken_name
    (pls : gmap string (list string)) (name video : string) (l : list string)
    (io : WriteOutcome (list string)) :
  pls !! name = Some l →
  Py.truthy video = true →
  handle_playlists_8 (Some pls) POST name None WriteOk
  = (Some (<[name := []]> pls), <[name := []]> pls) ∧
  create_playlist {| in_memory := pls; on_disk := Some pls |} name io
  = ({| in_memory := pls; on_disk := Some pls |}, false) ∧
  let once := handle_playlists_8 (Some pls) POST name (Some video) WriteOk in
  handle_playlists_8 once.1 POST name (Some video) WriteOk = once ∧
  video ∈ default [] (once.2 !! name).
Proof.
  intros Hl Hv. split; [done |]. split.
  - unfold create_playlist. cbn [in_memory].
    by rewrite bool_decide_eq_true_2 by (rewrite Hl; eauto).
  - assert (Hpost : ∀ m lm, m !! name = Some lm →
      handle_playlists_8 (Some m) POST name (Some video) WriteOk =
        if bool_decide (video ∈ lm) then (Some m, m)
        else (Some (<[name := lm ++ [video]]> m), <[name := lm ++ [video]]> m)).
    { intros m lm Hm. unfold handle_playlists_8, truthy_opt. rewrite Hv.
      cbn [load_json_file save_json_file].
      rewrite (bool_decide_eq_true_2 (is_Some (m !! name))) by (rewrite Hm; eauto).
      rewrite Hm. cbn [default]. unfold id. by case_bool_decide. }
    cbv zeta. rewrite (Hpost pls l Hl).
    destruct (decide (video ∈ l)) as [Hin | Hnin].
    + rewrite bool_decide_eq_true_2 by done. cbn [fst snd].
      rewrite (Hpost pls l Hl), bool_decide_eq_true_2 by done.
      by rewrite Hl.
    + rewrite bool_decide_eq_false_2 by done. cbn [fst snd].
      assert (Hnow : video ∈ l ++ [video]) by (apply elem_of_app; right; by left).
      rewrite (Hpost _ (l ++ [video])) by apply lookup_insert_eq.
      rewrite bool_decide_eq_true_2 by done. by rewrite lookup_insert_eq.
Qed.

End PlaylistFacts.

(** ** Comments *)

Section CommentFacts.

Lemma posted_comment_steps
    (w : World) (filename text now : string) (comment_data other_data : gmap string string)
    (later : string) (io : WriteOutcome (list Comment)) :
  comment_data !! "text" = Some text →
  let before := load_json_file (comments w) (Some ∅) in
  let comment := {| c_text := text; c_timestamp := now;
                    c_username := default "Anonymous" (comment_data !! "username") |} in
  let '(w1, posted) := handle_comments w filename POST comment_data now WriteOk in
  posted = CommentPosted comment ∧
  handle_comments w1 filename GET other_data later io
  = (w1, CommentList (default [] (before !! filename) ++ [comment])) ∧
  (∀ other, other ≠ filename →
     (handle_comments w1 other GET other_data later io).2
     = (handle_comments w other GET other_data later io).2) ∧
  watch_history w1 = watch_history w ∧
  playlists w1 = playlists w ∧
  videos w1 = videos w.
Proof.
  intros Htext. cbv zeta. unfold handle_comments at 1. rewrite Htext.
  set (before := load_json_file (comments w) (Some ∅)).
  set (c := {| c_text := text; c_timestamp := now; c_username := _ |}).
  assert (Hfirst : default [] ((if bool_decide (is_Some (before !! filename)) then before
                                else <[filename := []]> before) !! filename)
                   = default [] (before !! filename)).
  { case_bool_decide as Hin; [done |]. rewrite lookup_insert_eq.
    destruct (before !! filename) eqn:E; [by destruct Hin; eauto | done]. }
  rewrite Hfirst. cbn [save_json_file].
  set (m1 := if bool_decide (is_Some (before !! filename)) then before
             else <[filename := []]> before) in *.
  repeat split.
  - unfold handle_comments. cbn [comments load_json_file].
    rewrite (bool_decide_eq_true_2 (is_Some (<[filename := _]> m1 !! filename)))
      by (rewrite lookup_insert_eq; eauto).
    by rewrite lookup_insert_eq.
  - intros other Hne. unfold handle_comments. cbn [comments load_json_file snd].
    fold before. f_equal.
    assert (Hlook : ∀ m : gmap string (list Comment),
              default [] ((if bool_decide (is_Some (m !! other)) then m
                           else <[other := []]> m) !! other) = default [] (m !! other)).
    { intros m. case_bool_decide as Hin; [done |]. rewrite lookup_insert_eq.
      destruct (m !! other) eqn:E; [by destruct Hin; eauto | done]. }
    rewrite !Hlook. rewrite lookup_insert_ne by done.
    unfold m1. case_bool_decide; [done |]. by rewrite lookup_insert_ne.
Qed.

(** X15: a posted comment is the last one of its video.  After a POST
    whose write goes through, a GET for the same file answers the comments
    that were there followed by the new one (with the user name
    [Anonymous] when none was sent) and changes nothing; the comments of
    other files, the history and the playlists are as before. *)
Theorem posted_comment_is_listed_last
    (w : World) (filename text now : string) (comment_data other_data : gmap string string)
    (later : string) (io : WriteOutcome (list Comment)) :
  comment_data !! "text" = Some text →
  let before := load_json_file (comments w) (Some ∅) in
  let comment := {| c_text := text; c_timestamp := now;
                    c_username := default "Anonymous" (comment_data !! "username") |} in
  let posted := handle_comments w filename POST comment_data now WriteOk in
  posted.2 = CommentPosted comment ∧
  handle_comments posted.1 filename GET other_data later io
  = (posted.1, CommentList (default [] (before !! filename) ++ [comment])) ∧
  (∀ other, other ≠ filename →
     (handle_comments posted.1 other GET other_data later io).2
     = (handle_comments w other GET other_data later io).2) ∧
  watch_history posted.1 = watch_history w ∧
  playlists posted.1 = playlists w ∧
  videos posted.1 = videos w.
Proof.
  intros Htext. cbv zeta.
  pose proof (posted_comment_steps w filename text now comment_data other_data later io
                Htext) as Hsteps.
  cbv zeta in Hsteps.
  destruct (handle_comments w filename POST comment_data now WriteOk) as [w1 posted].
  exact Hsteps.
Qed.

(** A GET answers the comments of the file as the store has them. *)
Lemma handle_comments_get w filename comment_data now io :
  handle_comments w filename GET comment_data now io
  = (w, CommentList (default [] (load_json_file (comments w) (Some ∅) !! filename))).
Proof.
  unfold handle_comments. case_bool_decide as Hin; [done |]. rewrite lookup_insert_eq.
  destruct (_ !! filename) eqn:E; [by destruct Hin; eauto | done].
Qed.

(** X16: what the comment route does not do.  A POST without [text] stops
    with a [KeyError] that the route does not catch, and stores nothing; a
    GET never writes, and answers the empty list for a file that has no
    comments yet; and a POST whose write fails still answers with the
    comment, although a later GET answers what the failed write left in
    the file: the comments as they were, without the new one, when the
    file was not touched. *)
Theorem comment_route_edges
    (w : World) (filename now later : string) (comment_data : gmap string string)
    (io : WriteOutcome (list Comment)) :
  let stored (file : JsonFile (list Comment)) :=
    default [] (load_json_file file (Some ∅) !! filename) in
  (comment_data !! "text" = None →
   handle_comments w filename POST comment_data now io = (w, KeyError "text")) ∧
  handle_comments w filename GET comment_data now io = (w, CommentList (stored (comments w))) ∧
  (load_json_file (comments w) (Some ∅) !! filename = None →
   handle_comments w filename GET comment_data now io = (w, CommentList [])) ∧
  ∀ text left_behind,
    let posted :=
      handle_comments w filename POST (<["text" := text]> comment_data) now
        (WriteFails left_behind) in
    posted.2 = CommentPosted {| c_text := text; c_timestamp := now;
                                c_username := default "Anonymous"
                                                (comment_data !! "username") |} ∧
    handle_comments posted.1 filename GET comment_data later io
    = (posted.1, CommentList (stored left_behind)).
Proof.
  cbv zeta. split; [| split; [| split]].
  - intros Htext. unfold handle_comments. by rewrite Htext.
  - apply handle_comments_get.
  - intros Hnone. by rewrite handle_comments_get, Hnone.
  - intros text left_behind. rewrite handle_comments_get.
    unfold handle_comments. rewrite lookup_insert_eq.
    rewrite lookup_insert_ne by done. by cbn [save_json_file fst snd comments].
Qed.

End CommentFacts.

(** ** The duration text *)

Section Duration.

Lemma append_assoc_str (a b c : string) : (a +:+ b) +:+ c = a +:+ (b +:+ c).
Proof.
  induction a as [| x a IH]; [done |].
  change (String x a +:+ b) with (String x (a +:+ b)).
  change (String x (a +:+ b) +:+ c) with (String x ((a +:+ b) +:+ c)).
  by rewrite IH.
Qed.

Lemma split_head_app a t sep :
  occurs sep a = false → ∃ x xs, Py.split (a +:+ t) sep = (a +:+ x) :: xs.
Proof.
  induction a as [| c a IH].
  - intros _. change ("" +:+ t) with t.
    destruct t as [| c t]; [by exists "", [] |]. cbn [Py.split].
    destruct (Ascii.eqb c sep); [by exists "", (Py.split t sep) |].
    destruct (Py.split t sep) as [| x xs]; [by exists (String c ""), [] |].
    by exists (String c x), xs.
  - cbn [occurs]. intros [Hc Ha]%orb_false_elim.
    destruct (IH Ha) as (x & xs & Hsplit).
    change (String c a +:+ t) with (String c (a +:+ t)). cbn [Py.split].
    rewrite Hc, Hsplit. by exists x, xs.
Qed.

Lemma pad2_decimal m : (0 <= m)%Z → decimal (PyList.pad2 m) = true.
Proof.
  intros Hm. unfold PyList.pad2. pose proof (str_decimal m Hm) as Hd.
  destruct (m <? 10)%Z; [| done].
  unfold decimal in *. apply andb_prop in Hd as [_ Hd].
  change ("0" +:+ Py.str m) with (String "0" (Py.str m)). cbn [Py.truthy all_digits].
  by rewrite Hd.
Qed.

Lemma literal_pad2 m : (0 <= m)%Z → Py.literal (PyList.pad2 m) = Some m.
Proof.
  intros Hm. rewrite literal_decimal_value by (by apply pad2_decimal).
  unfold PyList.pad2. destruct (m <? 10)%Z.
  - change ("0" +:+ Py.str m) with (String "0" (Py.str m)). cbn [Py.digits_from].
    change (Py.digit_of "0") with (Some 0%Z). cbv iota.
    rewrite <- literal_decimal_value by (by apply str_decimal). by apply literal_str.
  - rewrite <- literal_decimal_value by (by apply str_decimal). by apply literal_str.
Qed.

(** Numbers below one hundred are far below the limit on the digits. *)
Lemma below_limit m : (m < 100)%Z → (m < 10 ^ Py.max_str_digits)%Z.
Proof.
  intros Hm. apply Z.lt_le_trans with (10 ^ 2)%Z; [done |].
  apply Z.pow_le_mono_r; [lia | done].
Qed.

Lemma int_pad2 m : (0 <= m)%Z → (m < 100)%Z → Py.int (PyList.pad2 m) = Some m.
Proof.
  intros Hm Hsmall. rewrite int_within_limit; [by apply literal_pad2 |].
  pose proof (count_digits_str_le m 2 Hm ltac:(lia) Hsmall) as Hcount.
  unfold PyList.pad2, Py.max_str_digits. destruct (m <? 10)%Z; [| lia].
  change ("0" +:+ Py.str m) with (String "0" (Py.str m)). cbn [Py.count_digits].
  change (Py.digit_of "0") with (Some 0%Z). cbv iota. lia.
Qed.

(** Three numerals with colons between them. *)
Lemma convert_duration_fields a b c h m s :
  decimal a = true → decimal b = true → decimal c = true →
  Py.int a = Some h → Py.int b = Some m → Py.int c = Some s →
  convert_duration (a +:+ ":" +:+ b +:+ ":" +:+ c)
  = inr (PyList.join ", " (readable_format h m s)).
Proof.
  intros Ha Hb Hc Hh Hm Hs. unfold convert_duration.
  change (":" +:+ b +:+ ":" +:+ c) with (String ":" (b +:+ String ":" c)).
  rewrite !split_app by (by apply decimal_occurs).
  rewrite split_no_sep by (by apply decimal_occurs).
  cbn [unpack3]. by rewrite Hh, Hm, Hs.
Qed.

(** X17: the duration text of a video of [n] seconds, as
    [get_video_duration] builds it from [str(timedelta(seconds=n))].  Below
    one day it names the hours, minutes and seconds of [n] that are not
    zero, and is the empty text for [n = 0]; from one day on
    [convert_duration] raises [ValueError], because the text then starts
    with the days, and the caller falls back to ["Unknown"]. *)
Theorem duration_text (n : Z) :
  (0 <= n)%Z →
  ((n < 86400)%Z →
   convert_duration (PyList.str_timedelta n)
   = inr (PyList.join ", " (readable_format (n / 3600) (n / 60 mod 60) (n mod 60)))) ∧
  ((86400 <= n)%Z → ∃ bad, convert_duration (PyList.str_timedelta n) = inl (BadLiteral bad)) ∧
  convert_duration (PyList.str_timedelta 0) = inr "".
Proof.
  intros Hn. split; [| split; [| reflexivity]].
  - intros Hday. unfold PyList.str_timedelta.
    rewrite (Z.div_small n 86400), (Z.mod_small n 86400) by lia.
    change (0 =? 0)%Z with true. cbv iota.
    replace (n / 3600)%Z with (n / 60 / 60)%Z by (rewrite Z.div_div by lia; done).
    apply convert_duration_fields.
    + apply str_decimal. apply Z.div_pos; [apply Z.div_pos |]; lia.
    + apply pad2_decimal. apply Z.mod_pos_bound. lia.
    + apply pad2_decimal. apply Z.mod_pos_bound. lia.
    + assert (n / 60 / 60 < 24)%Z
        by (rewrite Z.div_div by lia; apply Z.div_lt_upper_bound; lia).
      apply int_str; [apply Z.div_pos; [apply Z.div_pos |]; lia | apply below_limit; lia].
    + pose proof (Z.mod_pos_bound (n / 60) 60 ltac:(lia)). apply int_pad2; lia.
    + pose proof (Z.mod_pos_bound n 60 ltac:(lia)). apply int_pad2; lia.
  - intros Hday. unfold PyList.str_timedelta.
    assert (Hdays : (1 <= n / 86400)%Z) by (apply Z.div_le_lower_bound; lia).
    destruct (Z.eqb_spec (n / 86400) 0); [lia |].
    set (rest := (if (n / 86400 =? 1)%Z then "" else "s") +:+ _).
    rewrite <- (append_assoc_str (Py.str (n / 86400)) " day" rest).
    destruct (split_head_app (Py.str (n / 86400) +:+ " day") rest ":")
      as (x & xs & Hsplit).
    { rewrite occurs_app, (decimal_occurs ":" (Py.str (n / 86400)))
        by (done || apply str_decimal; lia). done. }
    unfold convert_duration. rewrite Hsplit. cbn [unpack3].
    destruct (Py.int _) as [v |] eqn:Hint; [| eauto].
    apply (int_chars "d") in Hint; try done.
    rewrite !occurs_app in Hint. cbn in Hint.
    by rewrite orb_true_r in Hint.
Qed.

End Duration.

(** ** The further properties on examples *)

Section MoreExamples.

Local Open Scope Z_scope.

Lemma range_header_end_to_end_witness :
  let r := (stream_video sample_world "a.mp4" (Some "bytes=10-99") "now" WriteOk).2 in
  status_of r = 206 ∧
  ∃ g t, body_of r = Some g ∧ run_body g = Some t ∧ t_ending t = Completed ∧
         delivered t = slice (v_bytes sample_video) 10 49.
Proof.
  destruct (range_header_end_to_end sample_world "a.mp4" "now" WriteOk sample_video 10 99)
    as ((Hstatus & _ & Hbody) & _);
    [reflexivity | reflexivity | lia | lia | cbn; lia | by vm_compute |].
  split; [exact Hstatus | exact Hbody].
Defined.

Lemma suffix_range_fails_witness :
  status_of (stream_video sample_world "a.mp4" (Some "bytes=-500") "now" WriteOk).2 = 500.
Proof.
  apply (proj2 (suffix_range_fails sample_world "a.mp4" "now" "500" WriteOk sample_video
                  eq_refl)).
Defined.

Lemma neighbouring_ranges_join_witness :
  ∃ t1 t2 t3,
    body_of (partial_response (fopen ten_bytes) 0 3 10 1 "video/mp4") ≫= run_body = Some t1 ∧
    body_of (partial_response (fopen ten_bytes) 4 7 10 4 "video/mp4") ≫= run_body = Some t2 ∧
    body_of (partial_response (fopen ten_bytes) 0 7 10 3 "video/mp4") ≫= run_body = Some t3 ∧
    delivered t1 ++ delivered t2 = delivered t3.
Proof.
  apply (neighbouring_ranges_join ten_bytes 0 3 7 10 1 4 3 "video/mp4"); cbn; lia.
Defined.

Lemma history_recorded_before_parsing_witness :
  let answer := stream_video sample_world "a.mp4" (Some "bytes=abc-def") "now" WriteOk in
  status_of answer.2 = 500 ∧
  (load_json_file (watch_history answer.1) (Some ∅)) !! "a.mp4" = Some "now".
Proof.
  destruct (history_recorded_before_parsing sample_world "a.mp4" "bytes=abc-def" "now"
              sample_video (ValueError_int "abc"))
    as (Hstatus & Hhistory & _); [reflexivity | reflexivity | reflexivity |].
  split; [exact Hstatus | exact Hhistory].
Defined.

Lemma serve_video_delivers_and_releases_witness :
  ∃ chunks g,
    serve_drain 11 4 (NotStarted ten_bytes) = Some (chunks, g) ∧
    concat chunks = ten_bytes ∧ released g.
Proof.
  destruct (serve_video_delivers_and_releases ten_bytes 4)
    as ((chunks & g & Hrun & Hbytes & Hrel & _) & _); [lia |].
  by exists chunks, g.
Defined.

Lemma pages_partition_the_list_witness :
  concat ((λ p : nat, page_videos (paginate 4 ten_bytes (Z.of_nat p))) <$> seq 1 3)
  = ten_bytes.
Proof.
  apply (pages_partition_the_list 4 ten_bytes). lia.
Defined.

Lemma pages_below_one_witness :
  page_videos (paginate 4 ten_bytes 0) = [] ∧
  page_videos (paginate 4 ten_bytes (-1)) = ["c"; "d"; "e"; "f"]%byte.
Proof.
  destruct (pages_below_one 4 ten_bytes 1) as (Hzero & Hminus & _); [lia | lia |].
  split; [exact Hzero | exact Hminus].
Defined.

Lemma next_video_is_successor_witness :
  next_video ["a.mp4"; "b.mp4"; "c.mp4"] "b.mp4" = Some "c.mp4" ∧
  next_video ["a.mp4"; "b.mp4"; "c.mp4"] "c.mp4" = None.
Proof.
  destruct (next_video_is_successor ["a.mp4"; "b.mp4"; "c.mp4"]) as (Hnext & _).
  { apply (bool_decide_unpack _). by vm_compute. }
  split; [exact (Hnext 1%nat "b.mp4" eq_refl) | exact (Hnext 2%nat "c.mp4" eq_refl)].
Defined.

(** With a repeated entry the player does not get past the repetition:
    after the second ["a.mp4"] it goes to ["b.mp4"] again. *)
Example next_video_with_repetition :
  next_video ["a.mp4"; "b.mp4"; "a.mp4"; "c.mp4"] "a.mp4" = Some "b.mp4".
Proof. reflexivity. Qed.

Lemma add_then_remove_restores_witness :
  let s := {| in_memory := {[ "mix" := ["a.mp4"] ]}; on_disk := None |} in
  let added := add_to_playlist s "mix" "b.mp4" WriteOk in
  let removed := remove_from_playlist added.1 "mix" "b.mp4" WriteOk in
  added.2 = true ∧ removed.2 = true ∧ in_memory removed.1 !! "mix" = Some ["a.mp4"].
Proof.
  destruct (add_then_remove_restores
              {| in_memory := {[ "mix" := ["a.mp4"] ]}; on_disk := None |}
              "mix" "b.mp4" WriteOk WriteOk) as (Ha & Hr & Hl & _).
  { apply (bool_decide_unpack _). by vm_compute. }
  split; [exact Ha |]. split; [exact Hr | exact Hl].
Defined.

Lemma get_playlist_creates_playlist_witness :
  let s := {| in_memory := ∅; on_disk := None |} in
  (get_playlist s "mix").2 = [] ∧
  (create_playlist s "mix" WriteOk).2 = true ∧
  (create_playlist (get_playlist s "mix").1 "mix" WriteOk).2 = false.
Proof.
  destruct (get_playlist_creates_playlist ∅ {| in_memory := ∅; on_disk := None |} "mix"
              WriteOk) as (Hl & _ & _ & _ & Hbefore & Hafter); [reflexivity |].
  split; [exact Hl |]. split; [exact Hbefore | exact Hafter].
Defined.

Lemma create_on_taken_name_witness :
  handle_playlists_8 (Some {[ "mix" := ["a.mp4"] ]}) POST "mix" None WriteOk
  = (Some (<["mix" := []]> {[ "mix" := ["a.mp4"] ]}), <["mix" := []]> {[ "mix" := ["a.mp4"] ]}).
Proof.
  apply (create_on_taken_name {[ "mix" := ["a.mp4"] ]} "mix" "b.mp4" ["a.mp4"] WriteOk);
    reflexivity.
Defined.

Lemma posted_comment_is_listed_last_witness :
  let posted :=
    handle_comments sample_world "a.mp4" POST {[ "text" := "nice" ]} "now" WriteOk in
  handle_comments posted.1 "a.mp4" GET ∅ "later" WriteOk
  = (posted.1, CommentList [ {| c_text := "nice"; c_timestamp := "now";
                                c_username := "Anonymous" |} ]).
Proof.
  destruct (posted_comment_is_listed_last sample_world "a.mp4" "nice" "now"
              {[ "text" := "nice" ]} ∅ "later" WriteOk) as (_ & Hget & _); [reflexivity |].
  exact Hget.
Defined.

Lemma comment_route_edges_witness :
  handle_comments sample_world "a.mp4" POST {[ "username" := "me" ]} "now" WriteOk
  = (sample_world, KeyError "text").
Proof.
  destruct (comment_route_edges sample_world "a.mp4" "now" "later" {[ "username" := "me" ]}
              WriteOk) as (Hpost & _).
  apply Hpost. reflexivity.
Defined.

Lemma duration_text_witness :
  convert_duration (PyList.str_timedelta 3725) = inr "1 hour, 2 minutes, 5 seconds" ∧
  ∃ bad, convert_duration (PyList.str_timedelta 90061) = inl (BadLiteral bad).
Proof.
  destruct (duration_text 3725) as (Hshort & _); [lia |].
  destruct (duration_text 90061) as (_ & Hlong & _); [lia |].
  split; [apply Hshort; lia | apply Hlong; lia].
Defined.

End MoreExamples.
